(** * ligo.skymap.bayestar.ez_emcee: box prior and adaptive sampling loop

    A shallow embedding of [src/ligo/skymap/bayestar/ez_emcee.py].

    - float64 values are IEEE-754 binary64 numbers, taken from the
      specification of floating-point arithmetic of the standard library
      ([spec_float], precision 53, infinities at exponent 1024);
    - Python numbers are either unbounded integers or floats;
    - Python exceptions are an explicit [Raise] result;
    - NumPy arrays are seen through their last axis: a leading shape and the
      list of rows (row-major order). *)

From Stdlib Require Import Ascii String DecimalString.
From Stdlib Require Import ZArith List Bool Lia QArith.
From Stdlib Require Import Floats.SpecFloat.
Import ListNotations.

Local Open Scope Z_scope.

(** ** Exceptions *)

Inductive exn : Type :=
| ValueError      (* shapes that cannot be broadcast, zero slice step, bad reshape *)
| OverflowError   (* int too large to convert to float *)
| TypeError       (* slice step that is not an integer *)
| IndexError.     (* index out of bounds *)

Inductive result (A : Type) : Type :=
| Ok (a : A)
| Raise (e : exn).

Arguments Ok {A} a.
Arguments Raise {A} e.

Definition bind {A B : Type} (r : result A) (k : A -> result B) : result B :=
  match r with
  | Ok a => k a
  | Raise e => Raise e
  end.

Notation "x <- r ;; k" := (bind r (fun x => k))
  (at level 61, r at next level, right associativity).

(** The value of a computation that does not raise. *)
Definition value_or {A : Type} (d : A) (r : result A) : A :=
  match r with
  | Ok a => a
  | Raise _ => d
  end.

(** ** float64 *)

Definition float : Type := spec_float.

Module F64.

Definition prec : Z := 53.
Definition emax : Z := 1024.

Definition zero : float := S754_zero false.          (* 0.0 *)
Definition nan : float := S754_nan.                  (* np.nan *)
Definition inf : float := S754_infinity false.       (* np.inf *)
Definition neg_inf : float := S754_infinity true.    (* -np.inf *)

Definition leb (a b : float) : bool := SFleb a b.    (* a <= b *)
Definition ltb (a b : float) : bool := SFltb a b.    (* a < b *)
Definition geb (a b : float) : bool := SFleb b a.    (* a >= b *)
Definition gtb (a b : float) : bool := SFltb b a.    (* a > b *)

Definition mul (a b : float) : float := SFmul prec emax a b.
Definition add (a b : float) : float := SFadd prec emax a b.

(** np.isfinite *)
Definition isfinite (a : float) : bool :=
  match a with
  | S754_zero _ | S754_finite _ _ _ => true
  | S754_infinity _ | S754_nan => false
  end.

(** The signed mantissa of a finite float. *)
Definition smant (s : bool) (m : positive) : Z :=
  if s then Zneg m else Zpos m.

(** The real number a finite float stands for, [(-1)^s * m * 2^e]. *)
Definition to_Q (a : float) : Q :=
  match a with
  | S754_finite s m e =>
      if 0 <=? e then inject_Z (smant s m * 2 ^ e)
      else Qmake (smant s m) (Z.to_pos (2 ^ (- e)))
  | _ => 0%Q
  end.

(** int(np.ceil(a)) for a finite float: the ceiling is exact. *)
Definition ceil (a : float) : Z :=
  match a with
  | S754_finite s m e =>
      if 0 <=? e then smant s m * 2 ^ e
      else - ((- smant s m) / 2 ^ (- e))
  | _ => 0
  end.

(** float(n) for a Python int: round to nearest even, OverflowError when
    the integer is out of the range of a double. *)
Definition of_int (n : Z) : result float :=
  let f := binary_normalize prec emax n 0 false in
  if isfinite f then Ok f else Raise OverflowError.

(** Exact comparison [n < a] of an integer with a float (no conversion). *)
Definition int_ltb (n : Z) (a : float) : bool :=
  match a with
  | S754_nan => false
  | S754_infinity s => negb s
  | S754_zero _ => n <? 0
  | S754_finite s m e =>
      if 0 <=? e then n <? smant s m * 2 ^ e
      else n * 2 ^ (- e) <? smant s m
  end.

(** Exact comparison [a < n] of a float with an integer. *)
Definition ltb_int (a : float) (n : Z) : bool :=
  match a with
  | S754_nan => false
  | S754_infinity s => s
  | S754_zero _ => 0 <? n
  | S754_finite s m e =>
      if 0 <=? e then smant s m * 2 ^ e <? n
      else smant s m <? n * 2 ^ (- e)
  end.

End F64.

(** ** NumPy arrays, seen through their last axis *)

Module Np.

(** An array of shape [lead ++ [ncol]]: [rows] lists, in row-major order,
    the vectors along the last axis. *)
Record ndarray (A : Type) : Type := mk_nd {
  lead : list nat;
  ncol : nat;
  rows : list (list A)
}.

Arguments mk_nd {A} lead ncol rows.
Arguments lead {A} n.
Arguments ncol {A} n.
Arguments rows {A} n.

(** An array of shape [vshape], one value per row of the former. *)
Record values (A : Type) : Type := mk_values {
  vshape : list nat;
  vals : list A
}.

Arguments mk_values {A} vshape vals.
Arguments vshape {A} v.
Arguments vals {A} v.

Definition size (shape : list nat) : nat := fold_right Nat.mul 1%nat shape.

(** The data agrees with the shape. *)
Definition wf {A : Type} (x : ndarray A) : Prop :=
  length (rows x) = size (lead x) /\
  Forall (fun r => length r = ncol x) (rows x).

(** Broadcasting of two last axes of lengths [n] and [m]. *)
Definition broadcast_len (n m : nat) : result nat :=
  if (n =? m)%nat then Ok n
  else if (m =? 1)%nat then Ok n
  else if (n =? 1)%nat then Ok m
  else Raise ValueError.

(** An axis of length one is repeated to length [n]. *)
Definition stretch {A : Type} (n : nat) (r : list A) : list A :=
  match r with
  | [a] => repeat a n
  | _ => r
  end.

Definition zip_with {A B C : Type} (f : A -> B -> C)
    (xs : list A) (ys : list B) : list C :=
  map (fun p => f (fst p) (snd p)) (combine xs ys).

(** [x op v] for a one-dimensional [v], broadcast along the last axis. *)
Definition broadcast_rows {A B C : Type} (f : A -> B -> C)
    (x : ndarray A) (v : list B) : result (ndarray C) :=
  n <- broadcast_len (ncol x) (length v) ;;
  Ok (mk_nd (lead x) n
        (map (fun r => zip_with f (stretch n r) (stretch n v)) (rows x))).

Definition ge (x : ndarray float) (lo : list float) : result (ndarray bool) :=
  broadcast_rows F64.geb x lo.

Definition le (x : ndarray float) (hi : list float) : result (ndarray bool) :=
  broadcast_rows F64.leb x hi.

(** [a & b] for two arrays with the same leading shape. *)
Definition and (a b : ndarray bool) : result (ndarray bool) :=
  n <- broadcast_len (ncol a) (ncol b) ;;
  Ok (mk_nd (lead a) n
        (zip_with (fun r s => zip_with andb (stretch n r) (stretch n s))
                  (rows a) (rows b))).

(** [a.all(-1)] *)
Definition all_last (a : ndarray bool) : values bool :=
  mk_values (lead a) (map (forallb (fun b => b)) (rows a)).

(** [np.where(c, t, e)] for scalars [t] and [e]. *)
Definition where_ {A : Type} (c : values bool) (t e : A) : values A :=
  mk_values (vshape c) (map (fun b : bool => if b then t else e) (vals c)).

End Np.

(** ** The prior

<<
def logp(x, lo, hi):
    return np.where(((x >= lo) & (x <= hi)).all(-1), 0.0, -np.inf)
>> *)

Definition logp (x : Np.ndarray float) (lo hi : list float)
    : result (Np.values float) :=
  above <- Np.ge x lo ;;
  below <- Np.le x hi ;;
  inside <- Np.and above below ;;
  Ok (Np.where_ (Np.all_last inside) F64.zero F64.neg_inf).

(** Every coordinate of the row [r] lies between the bounds, ends included. *)
Definition in_box (lo hi r : list float) : Prop :=
  forall i : nat, (i < length r)%nat ->
    F64.leb (nth i lo F64.nan) (nth i r F64.nan) = true /\
    F64.leb (nth i r F64.nan) (nth i hi F64.nan) = true.

(** The test made on one row, once the bounds have the length of the row. *)
Definition row_inside (lo hi r : list float) : bool :=
  forallb (fun b : bool => b)
    (Np.zip_with andb (Np.zip_with F64.geb r lo) (Np.zip_with F64.leb r hi)).

(** ** Python numbers *)

Module Py.

Inductive num : Type :=
| Int (n : Z)
| Float (a : float).

(** np.isfinite. NumPy takes a Python integer as a 64-bit machine integer
    (signed or unsigned); one that does not fit becomes an object, which
    [isfinite] does not support. *)
Definition isfinite (x : num) : result bool :=
  match x with
  | Int n =>
      if ((- 2 ^ 63 <=? n) && (n <? 2 ^ 64))%bool then Ok true
      else Raise TypeError
  | Float a => Ok (F64.isfinite a)
  end.

(** [x * y]: an integer operand is converted when the other is a float
    (a NumPy float64 scalar is taken as a Python float). *)
Definition mul (x y : num) : result num :=
  match x, y with
  | Int a, Int b => Ok (Int (a * b))
  | Int a, Float b => fa <- F64.of_int a ;; Ok (Float (F64.mul fa b))
  | Float a, Int b => fb <- F64.of_int b ;; Ok (Float (F64.mul a fb))
  | Float a, Float b => Ok (Float (F64.mul a b))
  end.

(** [x + y] *)
Definition add (x y : num) : result num :=
  match x, y with
  | Int a, Int b => Ok (Int (a + b))
  | Int a, Float b => fa <- F64.of_int a ;; Ok (Float (F64.add fa b))
  | Float a, Int b => fb <- F64.of_int b ;; Ok (Float (F64.add a fb))
  | Float a, Float b => Ok (Float (F64.add a b))
  end.

(** [x < y]: integers and floats are compared exactly. *)
Definition lt (x y : num) : bool :=
  match x, y with
  | Int a, Int b => a <? b
  | Int a, Float b => F64.int_ltb a b
  | Float a, Int b => F64.ltb_int a b
  | Float a, Float b => F64.ltb a b
  end.

(** [x > y] *)
Definition gt (x y : num) : bool := lt y x.

(** The builtin [max(x, y)]: the first argument is kept unless the second
    is strictly greater. *)
Definition max (x y : num) : num := if gt y x then y else x.

End Py.

(** ** The progress bar (tqdm), an observer *)

(** The record holds what [ez_emcee] hands to the bar. Drawing the bar is
    tqdm's own code and is not part of the record: it converts the total to
    a float, which raises OverflowError for an integer beyond the range of
    a double. A statement that a call returns is therefore made only where
    the totals handed to the bar are shown to stay integers of 64-bit
    range. *)

Inductive label : Type := NoLabel | BurningIn | Sampling | Checking.

Record progress : Type := mk_progress {
  total : Py.num;                       (* progress.total *)
  count : Z;                            (* number of calls of progress.update() *)
  desc : label;                         (* progress.set_description *)
  postfix : option (Py.num * float)     (* progress.set_postfix(acl=, accept=) *)
}.

(** Position of every walker at every temperature:
    indexed by temperature, walker, dimension. *)
Definition ensemble : Type := list (list (list float)).

(** An ensemble of shape [(ntemps, nwalkers, ndim)]. *)
Definition shaped (ntemps nwalkers ndim : nat) (e : ensemble) : Prop :=
  length e = ntemps /\
  Forall (fun t => length t = nwalkers /\
                   Forall (fun w : list float => length w = ndim) t) e.

(** ** Slicing with a step, [l[::k]]: the step must be a non-zero integer *)

Fixpoint every_from {A : Type} (k skip : nat) (l : list A) : list A :=
  match l with
  | [] => []
  | a :: l' =>
      match skip with
      | O => a :: every_from k (Nat.pred k) l'
      | S j => every_from k j l'
      end
  end.

Definition slice_step (k : Py.num) : result Z :=
  match k with
  | Py.Float _ => Raise TypeError
  | Py.Int 0 => Raise ValueError
  | Py.Int z => Ok z
  end.

Definition strided {A : Type} (k : Z) (l : list A) : list A :=
  match k with
  | Zpos p => every_from (Pos.to_nat p) 0 l
  | Zneg p => every_from (Pos.to_nat p) 0 (rev l)
  | Z0 => []
  end.

(** How a run of the controller ends, for a given number of allowed rounds. *)
Inductive outcome (A : Type) : Type :=
| Done (a : A)          (* returned *)
| Failed (e : exn)      (* raised *)
| Running.              (* still in the adaptive loop *)

Arguments Done {A} a.
Arguments Failed {A} e.
Arguments Running {A}.

(** ** A concrete sampler, to run the definitions

    The random source is trivial, the first position puts every walker on the
    lower bounds, the kernel rejects every proposal (the ensemble stays
    where it is) and the autocorrelation estimate is a constant. *)

Module Example.

Definition one : float := S754_finite false 4503599627370496 (-52).        (* 1.0 *)
Definition half : float := S754_finite false 4503599627370496 (-53).       (* 0.5 *)
Definition two : float := S754_finite false 4503599627370496 (-51).        (* 2.0 *)
Definition two_and_half : float := S754_finite false 5629499534213120 (-51). (* 2.5 *)

Definition uniform (g : unit) (lo hi : list float) (ntemps nwalkers ndim : nat)
    : unit * ensemble :=
  (g, repeat (repeat (firstn ndim (lo ++ repeat F64.zero ndim)) nwalkers) ntemps).

Definition kernel (g : unit) (e : ensemble) : unit * ensemble * Z := (g, e, 0).

Definition autocorr (est : float) (history : list ensemble) : float := est.

Definition acceptance (accepted proposed : Z) : float := F64.zero.

(** The unit interval. *)
Definition lo : list float := [F64.zero].
Definition hi : list float := [one].

(** A batch of three points of the plane: inside, on the boundary, outside. *)
Definition points : Np.ndarray float :=
  Np.mk_nd [3%nat] 2 [[half; half]; [F64.zero; one]; [half; two]].

(** A batch of shape (2, 0). *)
Definition no_columns : Np.ndarray float := Np.mk_nd [2%nat] 0 [[]; []].

(** [str.isspace] on the code points below 128. *)
Definition ascii_space (c : ascii) : bool :=
  let n := nat_of_ascii c in
  ((9 <=? n)%nat && (n <=? 13)%nat ||
   (28 <=? n)%nat && (n <=? 32)%nat)%bool.

End Example.

(** * ligo.skymap.tool: support of the command line interface

    A shallow embedding of the parts of [src/ligo/skymap/tool/__init__.py]
    that do not go through the file system, Matplotlib or the logging
    module. A Python [str] is the string of its UTF-8 bytes: prefix tests,
    substring tests and substring replacement on the bytes agree with those
    on the code points. *)

Module Tool.

Inductive error : Type :=
| ValueError
| RuntimeError
| AttributeError
| TypeError
| IndexError
| ArgumentError (msg : string).     (* argparse.ArgumentError, with its message *)

Inductive try (A : Type) : Type :=
| Return (a : A)
| Throw (e : error).

Arguments Return {A} a.
Arguments Throw {A} e.

(** ** Strings *)

(** [s.startswith(p)] *)
Definition startswith (s p : string) : bool := String.prefix p s.

(** [sub in s] *)
Fixpoint contains (sub s : string) : bool :=
  (String.prefix sub s ||
   match s with
   | EmptyString => false
   | String _ s' => contains sub s'
   end)%bool.

(** [s.replace('', new)]: [new] goes before every character and at the end. *)
Fixpoint intersperse (new s : string) : string :=
  match s with
  | EmptyString => new
  | String c s' => String.append new (String c (intersperse new s'))
  end.

(** The scan of [s.replace(old, new)] for a non-empty [old]: occurrences are
    taken from left to right and do not overlap; [skip] counts the
    characters of the last occurrence that are still to be passed. *)
Fixpoint replace_from (old new : string) (skip : nat) (s : string) : string :=
  match s with
  | EmptyString => EmptyString
  | String c s' =>
      match skip with
      | S k => replace_from old new k s'
      | O =>
          if String.prefix old s
          then String.append new
                 (replace_from old new (Nat.pred (String.length old)) s')
          else String c (replace_from old new 0 s')
      end
  end.

(** [s.replace(old, new)] *)
Definition replace (s old new : string) : string :=
  match old with
  | EmptyString => intersperse new s
  | _ => replace_from old new 0 s
  end.

(** [str(n)] for an integer *)
Definition str_of_int (n : Z) : string := NilZero.string_of_int (Z.to_int n).

(** ** Attributes of an object, in the order of their creation *)

Definition namespace (V : Type) : Type := list (string * V).

Fixpoint getattr {V : Type} (ns : namespace V) (k : string) : option V :=
  match ns with
  | [] => None
  | (k', v) :: ns' => if String.eqb k' k then Some v else getattr ns' k
  end.

Fixpoint setattr {V : Type} (ns : namespace V) (k : string) (v : V)
    : namespace V :=
  match ns with
  | [] => [(k, v)]
  | (k', v') :: ns' =>
      if String.eqb k' k then (k, v) :: ns' else (k', v') :: setattr ns' k v
  end.

(** ** EnableAction (lines 67-93) *)

Record action : Type := mk_action {
  option_strings : list string;
  dest : string;
  nargs : Z;
  default : bool;
  required : bool;
  help : option string
}.

(** [EnableAction.__init__]; the unpacking [opt, = option_strings] wants
    exactly one option string. *)
Definition EnableAction_init (strings : list string) (dest : string)
    (default required : bool) (help : option string) : try action :=
  match strings with
  | [opt] =>
      if negb (startswith opt "--enable-"%string) then Throw ValueError
      else Return (mk_action [opt; replace opt "--enable-"%string "--disable-"%string]
                     dest 0 default required help)
  | _ => Throw ValueError
  end.

(** [EnableAction.__call__] *)
Definition EnableAction_call (a : action) (ns : namespace bool)
    (option_string : string) : try (namespace bool) :=
  if startswith option_string "--enable-"%string
  then Return (setattr ns (dest a) true)
  else if startswith option_string "--disable-"%string
  then Return (setattr ns (dest a) false)
  else Throw RuntimeError.

(** ** GlobAction (lines 96-128) *)

(** The values [nargs] takes in argparse. *)
Inductive nargs_spec : Type :=
| NoNargs               (* None *)
| Optional              (* '?' *)
| ZeroOrMore            (* '*' *)
| OneOrMore             (* '+' *)
| Remainder             (* '...' *)
| Parser                (* 'A...' *)
| Exactly (n : Z).      (* an integer *)

(** [int(self.nargs)], in the last branch of the test. *)
Definition int_of_nargs (n : nargs_spec) : try Z :=
  match n with
  | Exactly k => Return k
  | NoNargs => Throw TypeError
  | _ => Throw ValueError
  end.

(** Lines 107-122: the complaint, if any, about the number of files. *)
Definition complaint (n : nargs_spec) (nvalues : Z) : try (option string) :=
  match n with
  | Optional =>
      Return (if 1 <? nvalues then Some "expected at most one file"%string
              else None)
  | OneOrMore =>
      Return (if nvalues <? 1 then Some "expected at least one file"%string
              else None)
  | ZeroOrMore => Return None
  | _ =>
      match int_of_nargs n with
      | Throw e => Throw e
      | Return k =>
          Return
            (if negb (k =? nvalues)
             then Some (String.append
                          (String.append "expected exactly "%string
                             (str_of_int k))
                          (String.append " file"%string
                             (if negb (k =? 1) then "s"%string
                              else EmptyString)))
             else None)
      end
  end.

(** [GlobAction.__call__], for the results [glob] of [glob.iglob]: the
    namespace as the call leaves it, and how the call ends. [values] lists
    the strings that the iteration over the argument [values] gives (the
    command line arguments when argparse passes a list of them). The stored
    value is [None] or a list of file names. *)
Definition GlobAction_call (glob : string -> list string) (n : nargs_spec)
    (dest : string) (ns : namespace (option (list string)))
    (values : list string)
    : namespace (option (list string)) * try unit :=
  let found := concat (map glob values) in
  let ns1 :=
    match found with
    | [] => ns
    | _ => setattr ns dest (Some found)
    end in
  match getattr ns1 dest with
  | None => (ns1, Throw AttributeError)
  | Some stored =>
      let nvalues :=
        match stored with
        | None => 0
        | Some files => Z.of_nat (length files)
        end in
      match complaint n nvalues with
      | Throw e => (ns1, Throw e)
      | Return None => (ns1, Return tt)
      | Return (Some msg) =>
          (ns1,
           Throw (ArgumentError
                    (String.append msg
                       (String.append ", but found "%string
                          (String.append (str_of_int nvalues)
                             (String.append " file"%string
                                (if negb (nvalues =? 1) then "s"%string
                                 else EmptyString)))))))
      end
  end.

(** ** HelpChoicesAction (lines 226-247) *)

(** The name computed by [HelpChoicesAction.__init__]. *)
Definition HelpChoicesAction_name (strings : list string) : try string :=
  match strings with
  | [] => Throw IndexError
  | opt :: _ => Return (replace opt "--help-"%string EmptyString)
  end.

(** The lines printed by [HelpChoicesAction.__call__]. *)
Definition HelpChoicesAction_call (name : string) (choices : list string)
    : list string :=
  String.append (String.append "Supported values for --"%string name) ":"%string
    :: choices.

(** ** ArgumentParser (lines 388-391): the default program name *)

(** [os.path.basename]: what follows the last slash; [cur] is what has been
    read since the last slash. *)
Fixpoint basename_from (cur s : string) : string :=
  match s with
  | EmptyString => cur
  | String c s' =>
      if Ascii.eqb c "/"%char then basename_from EmptyString s'
      else basename_from (String.append cur (String c EmptyString)) s'
  end.

Definition basename (s : string) : string := basename_from EmptyString s.

(** [prog], when none is given, from the file name of the calling frame. *)
Definition default_prog (co_filename : string) : string :=
  replace (replace (basename co_filename) "_"%string "-"%string)
          ".py"%string EmptyString.

(** ** SQLiteType (lines 498-501) *)

(** [SQLiteType.__init__]: [mode not in 'arw'] is a substring test. *)
Definition SQLiteType_init (mode : string) : try string :=
  if negb (contains mode "arw"%string) then Throw ValueError else Return mode.

(** ** _sanitize_arg_value_for_xmldoc (lines 510-518) *)

(** The values the function tells apart: an object with a [read] attribute
    (with the value of its [name] attribute, if it has one, which is any
    value: a string, a file descriptor, or again an object with a [read]
    attribute), a tuple, a list, and any other value. *)
Inductive pyval (A : Type) : Type :=
| Plain (a : A)
| FileLike (name : option (pyval A))
| Tuple (items : list (pyval A))
| PyList (items : list (pyval A)).

Arguments Plain {A} a.
Arguments FileLike {A} name.
Arguments Tuple {A} items.
Arguments PyList {A} items.

(** Building a sequence from fallible items: the first failure ends it. *)
Definition try_map {A B : Type} (f : A -> try B) : list A -> try (list B) :=
  fix go (l : list A) : try (list B) :=
    match l with
    | [] => Return []
    | a :: l' =>
        match f a with
        | Throw e => Throw e
        | Return b =>
            match go l' with
            | Throw e => Throw e
            | Return bs => Return (b :: bs)
            end
        end
    end.

(** Line 512 returns [value.name] as it is: the name is not sanitized. *)
Fixpoint sanitize {A : Type} (v : pyval A) : try (pyval A) :=
  match v with
  | FileLike (Some n) => Return n
  | FileLike None => Throw AttributeError
  | Tuple items =>
      match try_map sanitize items with
      | Throw e => Throw e
      | Return items' => Return (Tuple items')
      end
  | PyList items =>
      match try_map sanitize items with
      | Throw e => Throw e
      | Return items' => Return (PyList items')
      end
  | Plain a => Return (Plain a)
  end.

(** Lines 523-524 of [register_to_xmldoc]: the parameters handed to
    [process.register_to_xmldoc], from the items of [opts.__dict__]. *)
Definition register_params {A : Type} (opts : namespace (pyval A))
    : try (namespace (pyval A)) :=
  try_map (fun kv : string * pyval A =>
             match sanitize (snd kv) with
             | Throw e => Throw e
             | Return v => Return (fst kv, v)
             end) opts.

(** No object with a [read] attribute, at any depth of tuples and lists. *)
Fixpoint clean {A : Type} (v : pyval A) : bool :=
  match v with
  | Plain _ => true
  | FileLike _ => false
  | Tuple items => forallb clean items
  | PyList items => forallb clean items
  end.

(** Every object with a [read] attribute has a [name]. *)
Fixpoint named {A : Type} (v : pyval A) : bool :=
  match v with
  | Plain _ => true
  | FileLike name => match name with Some _ => true | None => false end
  | Tuple items => forallb named items
  | PyList items => forallb named items
  end.

(** Every object with a [read] attribute reached through tuples and lists
    has, if it has a [name], one that holds no object with a [read]
    attribute. *)
Fixpoint plain_names {A : Type} (v : pyval A) : bool :=
  match v with
  | Plain _ => true
  | FileLike name => match name with Some n => clean n | None => true end
  | Tuple items => forallb plain_names items
  | PyList items => forallb plain_names items
  end.

(** ** iterlines (lines 533-555) *)

Section Lines.

(** The characters of the file and [str.isspace]. *)
Variable char : Type.
Variable isspace : char -> bool.

Fixpoint lstrip (s : list char) : list char :=
  match s with
  | [] => []
  | c :: s' => if isspace c then lstrip s' else s
  end.

Definition rstrip (s : list char) : list char := rev (lstrip (rev s)).

(** [line.strip()] *)
Definition strip (s : list char) : list char := rstrip (lstrip s).

(** A line is stripped when it is not empty and neither begins nor ends
    with a space. *)
Definition stripped (l : list char) : Prop :=
  exists c t, l = c :: t /\ isspace c = false /\ isspace (last l c) = false.

(** The loop of lines 540-553 on the successive results of
    [file.readline()]; past these, [readline] returns the empty string. *)
Fixpoint read_lines (reads : list (list char)) : list (list char) :=
  match reads with
  | [] => []
  | line :: rest =>
      match line with
      | [] => []
      | _ :: _ =>
          match strip line with
          | [] => read_lines rest
          | l => l :: read_lines rest
          end
      end
  end.

(** [iterlines], consumed to its end: the lines it yields and what it prints
    on the standard error. *)
Definition iterlines {M : Type} (is_tty : bool) (reads : list (list char))
    (start_message stop_message : M) : list (list char) * list M :=
  (read_lines reads, if is_tty then [start_message; stop_message] else []).

End Lines.

Arguments lstrip {char} isspace s.
Arguments rstrip {char} isspace s.
Arguments strip {char} isspace s.
Arguments stripped {char} isspace l.
Arguments read_lines {char} isspace reads.
Arguments iterlines {char} isspace {M} is_tty reads start_message stop_message.

End Tool.

(** ** The sampler and the controller *)

Section Controller.

(** State of the random source [np.random]. *)
Variable rng : Type.

(** [np.random.uniform(lo, hi, (ntemps, nwalkers, ndim))], once the bounds
    are known to broadcast against the requested shape. *)
Variable uniform :
  rng -> list float -> list float -> nat -> nat -> nat -> rng * ensemble.

(** One iteration of the external sampler on the whole ensemble (proposals
    and temperature swaps, with [log_prob_fn] as the likelihood and [logp]
    as the prior); also gives the number of accepted proposals at the
    coldest temperature. *)
Variable kernel : rng -> ensemble -> rng * ensemble * Z.

(** [sampler.get_autocorr_time()[0].max()], from the retained history. *)
Variable autocorr : list ensemble -> float.

(** [np.mean(sampler.acceptance_fraction[0])], from the counters
    (accepted, proposed). *)
Variable acceptance : Z -> Z -> float.

(** Modelled from the spec: the handle of the external ensemble sampler
    ([ptemcee.Sampler], not part of the sources at hand). [time] counts
    the iterations taken since the last reset, [chain] is the retained
    history (oldest first; the array [sampler.chain] has shape temperature
    x walker x iteration x dimension), the last two are the acceptance
    counters. *)
Record Sampler : Type := mk_sampler {
  time : Z;
  chain : list ensemble;
  nprop : Z;
  nprop_accepted : Z
}.

(** Modelled from the spec: a newly built sampler has taken no iteration
    and retains nothing. *)
Definition new_sampler : Sampler := mk_sampler 0 [] 0 0.

(** Modelled from the spec: [reset()] clears the accumulated history and
    the internal counters; the ensemble position is not held by the
    sampler, so it is left alone. *)
Definition reset (s : Sampler) : Sampler := mk_sampler 0 [] 0 0.

(** The variables of [ez_emcee] that change during a run. *)
Record run : Type := mk_run {
  random : rng;
  sampler : Sampler;
  pos : ensemble;
  bar : progress;
  acl : Py.num;
  nsteps : Z
}.

Definition with_bar (s : run) (b : progress) : run :=
  mk_run (random s) (sampler s) (pos s) b (acl s) (nsteps s).

(** What the calls on the bar record; the redrawing that [set_description]
    and [update] trigger in tqdm is outside of these definitions. *)
Definition set_total (t : Py.num) (b : progress) : progress :=
  mk_progress t (count b) (desc b) (postfix b).

Definition set_description (d : label) (b : progress) : progress :=
  mk_progress (total b) (count b) d (postfix b).

Definition set_postfix (a : Py.num) (accept : float) (b : progress)
    : progress :=
  mk_progress (total b) (count b) (desc b) (Some (a, accept)).

Definition update (b : progress) : progress :=
  mk_progress (total b) (count b + 1) (desc b) (postfix b).

(** Modelled from the spec: one element of the lazy sequence
    [sampler.sample(pos, iterations, storechain)]: the ensemble advances by
    one iteration, kept in the history only when [storechain] is set. The
    loop variable [pos] is bound to the new state, and the body of the
    [for] loop ticks the progress bar. *)
Definition iteration (storechain : bool) (s : run) : run :=
  let '(g, e, accepted) := kernel (random s) (pos s) in
  let smp := sampler s in
  mk_run g
    (mk_sampler (time smp + 1)
       (if storechain then chain smp ++ [e] else chain smp)
       (nprop smp + Z.of_nat (length (hd [] e)))
       (nprop_accepted smp + accepted))
    e (update (bar s)) (acl s) (nsteps s).

(** Modelled from the spec: the whole [for] loop over
    [sampler.sample(pos, iterations=n, storechain=...)]; the sequence is
    finite, of [n] elements (none when [n] is not positive). *)
Definition sample (n : Z) (storechain : bool) (s : run) : run :=
  Nat.iter (Z.to_nat n) (iteration storechain) s.

(** The random state and the position after [n] iterations of the kernel. *)
Definition drift (n : nat) (ge : rng * ensemble) : rng * ensemble :=
  Nat.iter n (fun x => fst (kernel (fst x) (snd x))) ge.

(** The positions visited by [n] iterations of the kernel, in order. *)
Definition orbit (n : nat) (ge : rng * ensemble) : list ensemble :=
  map (fun i => snd (drift (S i) ge)) (seq 0 n).

(** *** ez_emcee *)

Section Run.

Variables (lo hi : list float).
Variables (nindep : Z) (ntemps : nat) (nwalkers : option nat) (nburnin : Z).

(** [ndim = len(lo)] *)
Definition ndim : nat := length lo.

(** [if nwalkers is None: nwalkers = 4 * ndim] *)
Definition walkers : nat :=
  match nwalkers with
  | None => (4 * ndim)%nat
  | Some n => n
  end.

(** Lines 97-104: the progress bar, the sampler and the first position.
    The draw fails when [hi] cannot be broadcast to [ndim] columns. The
    variable [acl] is bound at line 113 only; until then its field holds the
    value it is given there. *)
Definition start (g : rng) : result run :=
  let bar0 := mk_progress (Py.Int (nburnin + nindep * 64)) 0 NoLabel None in
  if ((length hi =? ndim)%nat || (length hi =? 1)%nat)%bool then
    let '(g', p) := uniform g lo (Np.stretch ndim hi) ntemps walkers ndim in
    Ok (mk_run g' new_sampler p bar0 (Py.Float F64.nan) 64)
  else Raise ValueError.

(** Lines 106-110: burn in. *)
Definition burn_in (s : run) : run :=
  sample nburnin false (with_bar s (set_description BurningIn (bar s))).

(** Lines 112-113: [sampler.reset(); acl = np.nan]. *)
Definition after_burn_in (s : run) : run :=
  mk_run (random s) (reset (sampler s)) (pos s) (bar s)
         (Py.Float F64.nan) (nsteps s).

(** Line 114: [not np.isfinite(acl) or sampler.time < nindep * acl];
    [or] does not evaluate its second operand when the first holds. *)
Definition continue (s : run) : result bool :=
  finite <- Py.isfinite (acl s) ;;
  if negb finite then Ok true
  else
    budget <- Py.mul (Py.Int nindep) (acl s) ;;
    Ok (Py.lt (Py.Int (time (sampler s))) budget).

(** Lines 125-127: the refreshed autocorrelation length. *)
Definition refresh_acl (estimate : float) : Py.num :=
  if F64.isfinite estimate
  then Py.max (Py.Int 1) (Py.Int (F64.ceil estimate))
  else Py.Float estimate.

(** Lines 116-135: the body of the adaptive loop. *)
Definition round (s : run) : result run :=
  budget <- Py.mul (Py.Int nindep) (acl s) ;;
  t <- Py.add (Py.Int nburnin)
         (Py.max (Py.Int (time (sampler s) + nsteps s)) budget) ;;
  let s1 := with_bar s (set_description Sampling (set_total t (bar s))) in
  let s2 := sample (nsteps s1) true s1 in
  let s3 := with_bar s2 (set_description Checking (bar s2)) in
  let acl' := refresh_acl (autocorr (chain (sampler s3))) in
  let accept :=
    acceptance (nprop_accepted (sampler s3)) (nprop (sampler s3)) in
  Ok (mk_run (random s3) (sampler s3) (pos s3)
        (set_postfix acl' accept (bar s3)) acl' (nsteps s3 * 2)).

(** The [while] loop, cut after [fuel] rounds. *)
Fixpoint while (fuel : nat) (s : run) : outcome run :=
  match continue s with
  | Raise e => Failed e
  | Ok false => Done s
  | Ok true =>
      match fuel with
      | O => Running
      | S fuel' =>
          match round s with
          | Raise e => Failed e
          | Ok s' => while fuel' s'
          end
      end
  end.

(** [sampler.chain[0]]: for each walker, its positions at the coldest
    temperature along the iterations. *)
Definition coldest_chain (s : run) : result (list (list (list float))) :=
  if (ntemps =? 0)%nat then Raise IndexError
  else Ok (map (fun w => map (fun e : ensemble => nth w (hd [] e) [])
                           (chain (sampler s)))
               (seq 0 walkers)).

(** Lines 137-139: thin along the iteration axis and flatten. *)
Definition thin_flatten (s : run) : result (Np.ndarray float) :=
  cold <- coldest_chain s ;;
  k <- slice_step (acl s) ;;
  let thinned := map (strided k) cold in
  if (ndim =? 0)%nat then Raise ValueError
  else
    let flat := concat thinned in
    Ok (Np.mk_nd [length flat] ndim flat).

Definition ez_emcee (fuel : nat) (g : rng) : outcome (Np.ndarray float) :=
  match start g with
  | Raise e => Failed e
  | Ok s0 =>
      match while fuel (after_burn_in (burn_in s0)) with
      | Failed e => Failed e
      | Running => Running
      | Done s =>
          match thin_flatten s with
          | Raise e => Failed e
          | Ok out => Done out
          end
      end
  end.

(** [reach k s s']: the loop, entered in [s], has run [k] rounds and
    stands in [s']. *)
Inductive reach : nat -> run -> run -> Prop :=
| reach_here : forall s, reach 0 s s
| reach_round : forall k s s' s'',
    continue s = Ok true -> round s = Ok s' -> reach k s' s'' ->
    reach (S k) s s''.

(** What holds of the variables each time the loop condition is evaluated:
    the round size is positive, the retained history has one entry per
    iteration taken, and the autocorrelation length is either a non-finite
    float or an integer not less than one. *)
Definition loop_invariant (s : run) : Prop :=
  0 < nsteps s /\
  Z.of_nat (length (chain (sampler s))) = time (sampler s) /\
  match acl s with
  | Py.Int a => 1 <= a
  | Py.Float f => F64.isfinite f = false
  end.

(** The states of a run that keeps the numbers handed to the progress bar
    small: the rounds have doubled from 64, the total shown is an integer
    between [nburnin + 64] and [nburnin + 64 * nindep * m + 64], and the
    autocorrelation length is the NaN of line 113, before the first round,
    or an integer between 1 and [m]. *)
Definition modest (m : Z) (s : run) : Prop :=
  nsteps s = time (sampler s) + 64 /\
  0 <= time (sampler s) /\
  (exists t : Z,
     total (bar s) = Py.Int t /\
     nburnin + 64 <= t <= nburnin + 64 * nindep * m + 64) /\
  ((acl s = Py.Float F64.nan /\ time (sampler s) = 0) \/
   exists a : Z, acl s = Py.Int a /\ 1 <= a <= m).
(** * Properties of the controller *)

(** ** Numbers *)

(** [F64.ceil] is the ceiling of the number the float stands for. *)
Lemma ceil_is_ceiling (a : float) :
  (inject_Z (F64.ceil a) - 1 < F64.to_Q a /\
   F64.to_Q a <= inject_Z (F64.ceil a))%Q.
Proof.
  destruct a as [s|s| |s m e]; try (split; [reflexivity | discriminate]).
  unfold F64.ceil, F64.to_Q.
  destruct (Z.leb_spec 0 e) as [He|He].
  - split.
    + unfold Qlt, Qminus, Qplus, Qopp, inject_Z. simpl. lia.
    + apply Qle_refl.
  - set (x := F64.smant s m).
    assert (Hd : 0 < 2 ^ (- e)) by (apply Z.pow_pos_nonneg; lia).
    set (d := 2 ^ (- e)) in *.
    pose proof (Z.div_mod (- x) d ltac:(lia)) as Hdm.
    pose proof (Z.mod_pos_bound (- x) d Hd) as Hmod.
    unfold Qlt, Qle, Qminus, Qplus, Qopp, inject_Z. simpl.
    rewrite Z2Pos.id by assumption.
    split; nia.
Qed.

Lemma max_of_ints (a b : Z) :
  Py.max (Py.Int a) (Py.Int b) = Py.Int (Z.max a b).
Proof.
  unfold Py.max, Py.gt, Py.lt.
  destruct (Z.ltb_spec a b); f_equal; lia.
Qed.

Lemma refresh_acl_cases (est : float) :
  refresh_acl est =
    if F64.isfinite est then Py.Int (Z.max 1 (F64.ceil est)) else Py.Float est.
Proof. unfold refresh_acl. now rewrite max_of_ints. Qed.

(** The product with a NaN is a NaN, whatever the integer, when it converts. *)
Lemma mul_nan (n : Z) (b : Py.num) :
  Py.mul (Py.Int n) (Py.Float F64.nan) = Ok b -> b = Py.Float F64.nan.
Proof.
  unfold Py.mul, bind. destruct (F64.of_int n) as [f|]; [|discriminate].
  intros H. injection H as <-. f_equal.
  destruct f; reflexivity.
Qed.

(** Nothing is greater than a NaN and a NaN is greater than nothing. *)
Lemma max_nan (x : Py.num) : Py.max x (Py.Float F64.nan) = x.
Proof. destruct x as [a|[ | | | ]]; reflexivity. Qed.

(** ** Sampling *)

Lemma drift_succ (n : nat) (ge : rng * ensemble) :
  drift (S n) ge = fst (kernel (fst (drift n ge)) (snd (drift n ge))).
Proof. reflexivity. Qed.

Lemma orbit_succ (n : nat) (ge : rng * ensemble) :
  orbit (S n) ge = orbit n ge ++ [snd (drift (S n) ge)].
Proof. unfold orbit. now rewrite seq_S, map_app. Qed.

Lemma drift_add (a b : nat) (ge : rng * ensemble) :
  drift (a + b) ge = drift b (drift a ge).
Proof. unfold drift. rewrite Nat.add_comm. apply Nat.iter_add. Qed.

Lemma orbit_add (a b : nat) (ge : rng * ensemble) :
  orbit (a + b) ge = orbit a ge ++ orbit b (drift a ge).
Proof.
  unfold orbit. rewrite seq_app, map_app. f_equal.
  generalize 0%nat as start.
  induction b as [|b IH]; intros start; [reflexivity|].
  simpl seq. rewrite !map_cons. f_equal.
  - rewrite <- drift_add. do 2 f_equal. lia.
  - apply (IH (S start)).
Qed.

(** What [n] iterations of the sampler do to the variables of the run. *)
Lemma iterations_effect (store : bool) (s : run) (n : nat) :
  let s' := Nat.iter n (iteration store) s in
  (random s', pos s') = drift n (random s, pos s) /\
  time (sampler s') = time (sampler s) + Z.of_nat n /\
  chain (sampler s') =
    (if store then chain (sampler s) ++ orbit n (random s, pos s)
     else chain (sampler s)) /\
  count (bar s') = count (bar s) + Z.of_nat n /\
  total (bar s') = total (bar s) /\
  desc (bar s') = desc (bar s) /\
  postfix (bar s') = postfix (bar s) /\
  acl s' = acl s /\ nsteps s' = nsteps s.
Proof.
  induction n as [|n IH].
  - simpl. repeat split; try lia.
    destruct store; [now rewrite app_nil_r | reflexivity].
  - cbn zeta in *. rewrite Nat.iter_succ.
    set (s1 := Nat.iter n (iteration store) s) in *.
    destruct IH as (Hge & Ht & Hc & Hn & Htot & Hd & Hp & Ha & Hs).
    rewrite drift_succ, <- Hge. cbn [fst snd].
    unfold iteration.
    destruct (kernel (random s1) (pos s1)) as [[g e] accepted] eqn:Hk.
    cbn [random pos sampler bar acl nsteps time chain fst snd update
         count total desc postfix].
    repeat split; try congruence; try lia.
    rewrite Hc. destruct store; [|reflexivity].
    rewrite orbit_succ, drift_succ, <- Hge. cbn [fst snd].
    now rewrite Hk, app_assoc.
Qed.

Lemma sample_effect (n : Z) (store : bool) (s : run) :
  let s' := sample n store s in
  (random s', pos s') = drift (Z.to_nat n) (random s, pos s) /\
  time (sampler s') = time (sampler s) + Z.max 0 n /\
  chain (sampler s') =
    (if store then chain (sampler s) ++ orbit (Z.to_nat n) (random s, pos s)
     else chain (sampler s)) /\
  count (bar s') = count (bar s) + Z.max 0 n /\
  total (bar s') = total (bar s) /\
  desc (bar s') = desc (bar s) /\
  postfix (bar s') = postfix (bar s) /\
  acl s' = acl s /\ nsteps s' = nsteps s.
Proof.
  cbn zeta. unfold sample.
  replace (Z.max 0 n) with (Z.of_nat (Z.to_nat n)) by lia.
  apply iterations_effect.
Qed.

(** ** One round *)

Lemma round_effect (s s' : run) :
  round s = Ok s' ->
  exists budget t,
    Py.mul (Py.Int nindep) (acl s) = Ok budget /\
    Py.add (Py.Int nburnin)
      (Py.max (Py.Int (time (sampler s) + nsteps s)) budget) = Ok t /\
    (random s', pos s') = drift (Z.to_nat (nsteps s)) (random s, pos s) /\
    time (sampler s') = time (sampler s) + Z.max 0 (nsteps s) /\
    chain (sampler s') =
      chain (sampler s) ++ orbit (Z.to_nat (nsteps s)) (random s, pos s) /\
    count (bar s') = count (bar s) + Z.max 0 (nsteps s) /\
    total (bar s') = t /\
    desc (bar s') = Checking /\
    acl s' = refresh_acl (autocorr (chain (sampler s'))) /\
    nsteps s' = nsteps s * 2.
Proof.
  unfold round, bind.
  destruct (Py.mul (Py.Int nindep) (acl s)) as [budget|]; [|discriminate].
  destruct (Py.add _ _) as [t|] eqn:Hadd; [|discriminate].
  intros H. injection H as <-. exists budget, t.
  set (s1 := with_bar s (set_description Sampling (set_total t (bar s)))).
  pose proof (sample_effect (nsteps s1) true s1) as E. cbn zeta in E.
  destruct E as (Hge & Ht & Hc & Hn & Htot & Hd & Hp & Ha & Hs).
  subst s1.
  cbn [random pos sampler bar acl nsteps with_bar set_postfix
       set_description set_total count total desc postfix] in *.
  repeat split; try reflexivity; try assumption; congruence.
Qed.

Lemma round_keeps_invariant (s s' : run) :
  loop_invariant s -> round s = Ok s' -> loop_invariant s'.
Proof.
  intros (Hn & Hlen & _) H.
  apply round_effect in H.
  destruct H as (budget & t & _ & _ & _ & Ht & Hc & _ & _ & _ & Ha & Hs).
  unfold loop_invariant. rewrite Hs, Ht, Ha. split; [lia|]. split.
  - rewrite Hc, length_app. unfold orbit. rewrite length_map, length_seq. lia.
  - rewrite refresh_acl_cases.
    destruct (F64.isfinite (autocorr (chain (sampler s')))) eqn:E; [lia | exact E].
Qed.

Lemma entry_invariant (g : rng) (s0 : run) :
  start g = Ok s0 -> loop_invariant (after_burn_in (burn_in s0)).
Proof.
  unfold start. destruct (_ || _)%bool; [|discriminate].
  destruct (uniform _ _ _ _ _ _) as [g' p].
  intros H. injection H as <-.
  unfold loop_invariant, after_burn_in, burn_in.
  cbn [nsteps sampler acl reset chain time length].
  pose proof (sample_effect nburnin false
    (with_bar (mk_run g' new_sampler p
                 (mk_progress (Py.Int (nburnin + nindep * 64)) 0 NoLabel None)
                 (Py.Float F64.nan) 64)
       (set_description BurningIn
          (mk_progress (Py.Int (nburnin + nindep * 64)) 0 NoLabel None)))) as E.
  cbn zeta in E. destruct E as (_ & _ & _ & _ & _ & _ & _ & _ & Hs).
  cbn [with_bar bar nsteps] in *. rewrite Hs. cbn [nsteps].
  repeat split; reflexivity.
Qed.

Lemma reach_invariant (k : nat) (s s' : run) :
  reach k s s' -> loop_invariant s -> loop_invariant s'.
Proof.
  induction 1 as [s | k s s1 s2 _ Hr _ IH]; intros Hinv; [assumption|].
  apply IH. eapply round_keeps_invariant; eassumption.
Qed.

(** A loop that returns has gone through a finite number of rounds and has
    found its condition false. *)
Lemma while_done (fuel : nat) : forall s s' : run,
  while fuel s = Done s' ->
  exists k : nat, (k <= fuel)%nat /\ reach k s s' /\ continue s' = Ok false.
Proof.
  induction fuel as [|fuel IH]; intros s s'; simpl.
  - destruct (continue s) as [[|]|] eqn:Hc; try discriminate.
    intros H. injection H as <-. exists 0%nat.
    split; [lia|]. split; [constructor | exact Hc].
  - destruct (continue s) as [[|]|] eqn:Hc; try discriminate.
    + destruct (round s) as [s1|] eqn:Hr; [|discriminate].
      intros H. apply IH in H. destruct H as (k & Hk & Hreach & Hstop).
      exists (S k). split; [lia|]. split; [|exact Hstop].
      econstructor; eassumption.
    + intros H. injection H as <-. exists 0%nat.
      split; [lia|]. split; [constructor | exact Hc].
Qed.

Lemma continue_cases (s : run) :
  continue s =
    match Py.isfinite (acl s) with
    | Raise e => Raise e
    | Ok false => Ok true
    | Ok true =>
        match Py.mul (Py.Int nindep) (acl s) with
        | Raise e => Raise e
        | Ok budget => Ok (Py.lt (Py.Int (time (sampler s))) budget)
        end
    end.
Proof.
  unfold continue, bind. destruct (Py.isfinite (acl s)) as [[|]|]; reflexivity.
Qed.

(** The loop returns in [s'] from [s] exactly when a finite number of
    rounds, each entered with the condition true, leads to [s'], where the
    condition is false. *)
Lemma while_reach (k : nat) (s s' : run) :
  reach k s s' -> continue s' = Ok false ->
  forall fuel : nat, (k <= fuel)%nat -> while fuel s = Done s'.
Proof.
  induction 1 as [s | k s s1 s2 Hc Hr _ IH]; intros Hstop fuel Hk.
  - destruct fuel; cbn [while]; now rewrite Hstop.
  - destruct fuel as [|fuel]; [lia|]. cbn [while]. rewrite Hc, Hr.
    apply IH; [exact Hstop | lia].
Qed.

(** C1: the [while] loop runs a further round exactly when its condition is
    true, that is when the autocorrelation length is not finite or
    [sampler.time < nindep * acl], and returns, in the state it is in,
    exactly when the condition is false: it returns only in a state where
    the length is finite and the budget [nindep * acl] is met. With a
    non-finite length the condition holds whatever the number of iterations
    taken, and if the estimate never becomes finite, the loop never
    returns. *)
Theorem loop_condition :
  (forall s : run,
     continue s = Ok true <->
     Py.isfinite (acl s) = Ok false \/
     (Py.isfinite (acl s) = Ok true /\
      exists budget, Py.mul (Py.Int nindep) (acl s) = Ok budget /\
                     Py.lt (Py.Int (time (sampler s))) budget = true)) /\
  (forall (s : run) (a : Z),
     acl s = Py.Int a -> Py.isfinite (acl s) = Ok true ->
     continue s = Ok (time (sampler s) <? nindep * a)) /\
  (forall (s : run) (f : float),
     acl s = Py.Float f -> F64.isfinite f = false ->
     continue s = Ok true /\
     while 0 s = Running /\
     forall fuel, while (S fuel) s =
                  match round s with
                  | Raise e => Failed e
                  | Ok s' => while fuel s'
                  end) /\
  (forall (fuel : nat) (s s' : run),
     while fuel s = Done s' -> Py.isfinite (acl s') = Ok true) /\
  ((forall h, F64.isfinite (autocorr h) = false) ->
   forall (fuel : nat) (s s' : run) (f : float),
     acl s = Py.Float f -> F64.isfinite f = false -> while fuel s <> Done s') /\
  (forall s : run,
     continue s = Ok true ->
     while 0 s = Running /\
     forall fuel, while (S fuel) s =
                  match round s with
                  | Raise e => Failed e
                  | Ok s' => while fuel s'
                  end) /\
  (forall (fuel : nat) (s : run),
     continue s = Ok false -> while fuel s = Done s) /\
  (forall (fuel : nat) (s : run) (e : exn),
     continue s = Raise e -> while fuel s = Failed e) /\
  (forall (fuel : nat) (s s' : run),
     while fuel s = Done s' <->
     exists k : nat, (k <= fuel)%nat /\ reach k s s' /\ continue s' = Ok false) /\
  (forall (fuel : nat) (s : run) (a : Z),
     acl s = Py.Int a -> Py.isfinite (acl s) = Ok true ->
     (time (sampler s) < nindep * a ->
      while (S fuel) s = match round s with
                         | Raise e => Failed e
                         | Ok s' => while fuel s'
                         end) /\
     (nindep * a <= time (sampler s) -> while fuel s = Done s)) /\
  (forall (fuel : nat) (s s' : run) (a : Z),
     while fuel s = Done s' -> acl s' = Py.Int a ->
     nindep * a <= time (sampler s')).
Proof.
  assert (Hnonfinite : forall (s : run) (f : float),
            acl s = Py.Float f -> F64.isfinite f = false -> continue s = Ok true).
  { intros s f Ha Hf. rewrite continue_cases, Ha. cbn [Py.isfinite]. now rewrite Hf. }
  assert (Hgo : forall s : run,
            continue s = Ok true ->
            while 0 s = Running /\
            forall fuel, while (S fuel) s =
                         match round s with
                         | Raise e => Failed e
                         | Ok s' => while fuel s'
                         end).
  { intros s Hc. split; [cbn [while]; now rewrite Hc|].
    intros fuel. cbn [while]. now rewrite Hc. }
  assert (Hend : forall (fuel : nat) (s : run),
            continue s = Ok false -> while fuel s = Done s).
  { intros fuel s Hc. destruct fuel; cbn [while]; now rewrite Hc. }
  assert (Hint : forall (s : run) (a : Z),
            acl s = Py.Int a -> Py.isfinite (acl s) = Ok true ->
            continue s = Ok (time (sampler s) <? nindep * a)).
  { intros s a Ha Hfin. rewrite continue_cases, Hfin, Ha. reflexivity. }
  repeat match goal with |- _ /\ _ => split end.
  - intros s. rewrite continue_cases. split.
    + destruct (Py.isfinite (acl s)) as [[|]|]; try discriminate; [|now left].
      destruct (Py.mul _ _) as [budget|]; [|discriminate].
      intros H. injection H as H. right. split; [reflexivity|].
      exists budget. now split.
    + intros [H | (H & budget & Hm & Hlt)]; rewrite H; [reflexivity|].
      now rewrite Hm, Hlt.
  - exact Hint.
  - intros s f Ha Hf. pose proof (Hnonfinite s f Ha Hf) as Hc.
    split; [exact Hc|]. exact (Hgo s Hc).
  - intros fuel s s' H. apply while_done in H.
    destruct H as (_ & _ & _ & Hstop).
    rewrite continue_cases in Hstop.
    destruct (Py.isfinite (acl s')) as [[|]|]; [reflexivity | discriminate..].
  - intros Hest fuel. induction fuel as [|fuel IH]; intros s s' f Ha Hf.
    + cbn [while]. now rewrite (Hnonfinite s f Ha Hf).
    + cbn [while]. rewrite (Hnonfinite s f Ha Hf).
      destruct (round s) as [s1|] eqn:Hr; [|discriminate].
      apply round_effect in Hr.
      destruct Hr as (_ & _ & _ & _ & _ & _ & _ & _ & _ & _ & Hacl & _).
      rewrite refresh_acl_cases, Hest in Hacl.
      eapply IH; [exact Hacl | apply Hest].
  - exact Hgo.
  - exact Hend.
  - intros fuel s e Hc. destruct fuel; cbn [while]; now rewrite Hc.
  - intros fuel s s'. split; [apply while_done|].
    intros (k & Hk & Hreach & Hstop). exact (while_reach k s s' Hreach Hstop fuel Hk).
  - intros fuel s a Ha Hfin. pose proof (Hint s a Ha Hfin) as Hc. split.
    + intros Hlt. apply Hgo. rewrite Hc. f_equal. now apply Z.ltb_lt.
    + intros Hge. apply Hend. rewrite Hc. f_equal. now apply Z.ltb_ge.
  - intros fuel s s' a H Ha. apply while_done in H.
    destruct H as (_ & _ & _ & Hstop).
    rewrite continue_cases, Ha in Hstop.
    destruct (Py.isfinite (Py.Int a)) as [[|]|]; try discriminate.
    cbn [Py.mul] in Hstop. injection Hstop as Hlt.
    unfold Py.lt in Hlt. now apply Z.ltb_ge.
Qed.

(** C4: after a round, a finite estimate is stored as the integer
    [max(1, ceil(estimate))], where [ceil] is the least integer not below
    the estimate; an estimate that is not finite is stored as it is. *)
Theorem acl_refresh : forall s s' : run,
  round s = Ok s' ->
  let estimate := autocorr (chain (sampler s')) in
  (F64.isfinite estimate = true ->
     acl s' = Py.Int (Z.max 1 (F64.ceil estimate)) /\
     (inject_Z (F64.ceil estimate) - 1 < F64.to_Q estimate)%Q /\
     (F64.to_Q estimate <= inject_Z (F64.ceil estimate))%Q) /\
  (F64.isfinite estimate = false -> acl s' = Py.Float estimate).
Proof.
  intros s s' H estimate. apply round_effect in H.
  destruct H as (_ & _ & _ & _ & _ & _ & _ & _ & _ & _ & Hacl & _).
  fold estimate in Hacl. rewrite refresh_acl_cases in Hacl.
  split; intros E; rewrite E in Hacl; [|exact Hacl].
  split; [exact Hacl | apply ceil_is_ceiling].
Qed.

(** ** The rounds of the loop *)

Lemma start_effect (g : rng) (s0 : run) :
  start g = Ok s0 ->
  ((length hi = ndim) \/ (length hi = 1)%nat) /\
  s0 = mk_run (fst (uniform g lo (Np.stretch ndim hi) ntemps walkers ndim))
         new_sampler
         (snd (uniform g lo (Np.stretch ndim hi) ntemps walkers ndim))
         (mk_progress (Py.Int (nburnin + nindep * 64)) 0 NoLabel None)
         (Py.Float F64.nan) 64.
Proof.
  unfold start.
  destruct (_ || _)%bool eqn:Hlen; [|discriminate].
  destruct (uniform _ _ _ _ _ _) as [g' p].
  intros H. injection H as <-. split; [|reflexivity].
  apply orb_true_iff in Hlen. rewrite !Nat.eqb_eq in Hlen. exact Hlen.
Qed.

(** The state in which the loop is entered. *)
Lemma entry_effect (g : rng) (s0 : run) :
  start g = Ok s0 ->
  let burnt := burn_in s0 in
  let entry := after_burn_in burnt in
  time (sampler burnt) = Z.max 0 nburnin /\
  count (bar burnt) = Z.max 0 nburnin /\
  chain (sampler burnt) = [] /\
  (random burnt, pos burnt) = drift (Z.to_nat nburnin) (random s0, pos s0) /\
  sampler entry = mk_sampler 0 [] 0 0 /\
  (random entry, pos entry) = (random burnt, pos burnt) /\
  bar entry = bar burnt /\
  acl entry = Py.Float F64.nan /\
  nsteps entry = 64.
Proof.
  intros H. apply start_effect in H. destruct H as [_ ->].
  cbn zeta. unfold burn_in.
  match goal with |- context [sample nburnin false ?x] =>
    pose proof (sample_effect nburnin false x) as E end.
  cbn zeta in E. destruct E as (Hge & Ht & Hc & Hn & _ & _ & _ & _ & Hs).
  cbn [after_burn_in reset with_bar random sampler pos bar acl nsteps
       new_sampler time chain set_description count] in *.
  repeat split; try assumption; lia.
Qed.

Lemma reach_growth (k : nat) (s s' : run) :
  reach k s s' -> 0 < nsteps s ->
  nsteps s' = nsteps s * 2 ^ Z.of_nat k /\
  time (sampler s') = time (sampler s) + nsteps s * (2 ^ Z.of_nat k - 1).
Proof.
  induction 1 as [s | k s s1 s2 _ Hr _ IH]; intros Hn.
  - simpl. lia.
  - apply round_effect in Hr.
    destruct Hr as (_ & _ & _ & _ & _ & Ht & _ & _ & _ & _ & _ & Hs).
    destruct IH as [IHn IHt]; [lia|].
    rewrite IHn, IHt, Hs, Ht, Nat2Z.inj_succ, Z.pow_succ_r by lia.
    split; lia.
Qed.

(** C5: the round size is 64 when the loop is entered and doubles with every
    round, so that it is [64 * 2^k] after [k] rounds and strictly increases;
    [sampler.time], which is then [64 * (2^k - 1)], never decreases. *)
Theorem nsteps_doubles : forall (g : rng) (s0 : run) (k : nat) (s : run),
  start g = Ok s0 ->
  reach k (after_burn_in (burn_in s0)) s ->
  nsteps (after_burn_in (burn_in s0)) = 64 /\
  nsteps s = 64 * 2 ^ Z.of_nat k /\
  time (sampler s) = 64 * (2 ^ Z.of_nat k - 1) /\
  forall s' : run,
    round s = Ok s' ->
    nsteps s' = 2 * nsteps s /\
    nsteps s < nsteps s' /\
    time (sampler s) <= time (sampler s').
Proof.
  intros g s0 k s Hstart Hreach.
  pose proof (entry_effect g s0 Hstart) as E. cbn zeta in E.
  destruct E as (_ & _ & _ & _ & Hsmp & _ & _ & _ & Hn).
  pose proof (reach_growth k _ s Hreach) as G.
  rewrite Hn, Hsmp in G. cbn [time] in G.
  destruct G as [Gn Gt]; [lia|].
  assert (0 < 2 ^ Z.of_nat k) by (apply Z.pow_pos_nonneg; lia).
  repeat split; try assumption; try lia.
  all: apply round_effect in H0;
    destruct H0 as (_ & _ & _ & _ & _ & Ht & _ & _ & _ & _ & _ & Hs); lia.
Qed.

(** C6, as the code has it: the total of the progress bar becomes
    [nburnin + max(sampler.time + nsteps, nindep * acl)], in Python's
    arithmetic and with the builtin [max]; for an integer length this is the
    greater of the two integers, and while the length is still NaN, [max]
    keeps its first argument: the total is [nburnin + sampler.time + nsteps]. *)
Theorem progress_total : forall s s' : run,
  round s = Ok s' ->
  (exists budget : Py.num,
     Py.mul (Py.Int nindep) (acl s) = Ok budget /\
     Py.add (Py.Int nburnin)
       (Py.max (Py.Int (time (sampler s) + nsteps s)) budget) =
     Ok (total (bar s'))) /\
  (forall a : Z,
     acl s = Py.Int a ->
     total (bar s') =
       Py.Int (nburnin + Z.max (time (sampler s) + nsteps s) (nindep * a))) /\
  (acl s = Py.Float F64.nan ->
     total (bar s') = Py.Int (nburnin + (time (sampler s) + nsteps s))).
Proof.
  intros s s' H. apply round_effect in H.
  destruct H as (budget & t & Hmul & Hadd & _ & _ & _ & _ & Htot & _).
  rewrite Htot. split; [|split].
  - exists budget. split; assumption.
  - intros a Ha. rewrite Ha in Hmul. cbn [Py.mul] in Hmul.
    injection Hmul as <-. rewrite max_of_ints in Hadd.
    cbn [Py.add] in Hadd. congruence.
  - intros Ha. rewrite Ha in Hmul. apply mul_nan in Hmul. subst budget.
    rewrite max_nan in Hadd. cbn [Py.add] in Hadd. congruence.
Qed.

(** The history of a state of the loop is made of the positions visited
    since the loop was entered. *)
Lemma reach_chain (k : nat) (s s' : run) :
  reach k s s' -> 0 < nsteps s ->
  time (sampler s) <= time (sampler s') /\
  chain (sampler s') =
    chain (sampler s) ++
    orbit (Z.to_nat (time (sampler s') - time (sampler s))) (random s, pos s).
Proof.
  induction 1 as [s | k s s1 s2 _ Hr _ IH]; intros Hn.
  - rewrite Z.sub_diag. unfold orbit. simpl. split; [lia | now rewrite app_nil_r].
  - apply round_effect in Hr.
    destruct Hr as (_ & _ & _ & _ & Hge & Ht & Hc & _ & _ & _ & _ & Hs).
    destruct IH as [IHt IHc]; [lia|]. split; [lia|].
    rewrite IHc, Hc, Hge, <- app_assoc, <- orbit_add. do 2 f_equal. lia.
Qed.

(** ** Thinning *)

Lemma every_from_nth {A : Type} (k : nat) :
  (1 <= k)%nat ->
  forall (l : list A) (skip j : nat),
    nth_error (every_from k skip l) j = nth_error l (skip + j * k).
Proof.
  intros Hk. induction l as [|a l IH]; intros skip j.
  - simpl. now rewrite !nth_error_nil.
  - destruct skip as [|i]; simpl.
    + destruct j as [|j]; [reflexivity|]. simpl nth_error at 1.
      rewrite IH. destruct k as [|k']; [lia|]. reflexivity.
    + apply IH.
Qed.

Lemma every_from_incl {A : Type} (k : nat) (x : A) :
  forall (l : list A) (skip : nat), In x (every_from k skip l) -> In x l.
Proof.
  induction l as [|a l IH]; intros skip; [easy|].
  destruct skip as [|i]; simpl.
  - intros [H | H]; [now left | right; eapply IH; exact H].
  - intros H. right. eapply IH; exact H.
Qed.

Lemma every_from_length {A : Type} (k : nat) :
  forall (l : list A) (skip : nat),
    (skip < k)%nat ->
    let n := Z.of_nat (length (every_from k skip l)) in
    let rest := Z.of_nat (length l) - Z.of_nat skip in
    (rest <= 0 -> n = 0) /\
    (0 < rest -> Z.of_nat k * (n - 1) < rest <= Z.of_nat k * n).
Proof.
  induction l as [|a l IH]; intros skip Hs; cbn zeta.
  - simpl. lia.
  - destruct skip as [|i].
    + specialize (IH (Nat.pred k) ltac:(lia)). cbn zeta in IH.
      cbn [every_from length]. rewrite !Nat2Z.inj_succ.
      rewrite Nat2Z.inj_pred in IH by lia.
      destruct IH as [IH0 IH1]. split; [lia|]. intros _.
      destruct (Z.le_gt_cases (Z.of_nat (length l) - Z.pred (Z.of_nat k)) 0)
        as [Hle|Hgt].
      * rewrite (IH0 Hle). lia.
      * specialize (IH1 Hgt). lia.
    + specialize (IH i ltac:(lia)). cbn zeta in IH.
      cbn [every_from length]. rewrite !Nat2Z.inj_succ. 
      destruct IH as [IH0 IH1]. split; intros H.
      * apply IH0. lia.
      * assert (H' : 0 < Z.of_nat (length l) - Z.of_nat i) by lia.
        specialize (IH1 H'). lia.
Qed.

(** A slice of positive step [a] keeps the entries of index [0], [a],
    [2a], ...: as many as the ceiling of the length over [a]. *)
Lemma strided_positive {A : Type} (a : Z) (l : list A) :
  1 <= a ->
  (forall j : nat, nth_error (strided a l) j = nth_error l (j * Z.to_nat a)) /\
  a * (Z.of_nat (length (strided a l)) - 1) < Z.of_nat (length l) /\
  Z.of_nat (length l) <= a * Z.of_nat (length (strided a l)) /\
  Z.of_nat (length (strided a l)) = (Z.of_nat (length l) + a - 1) / a.
Proof.
  intros Ha. destruct a as [|p|p]; try lia.
  unfold strided. rewrite Z2Nat.inj_pos.
  pose proof (Pos2Nat.is_pos p) as Hp.
  pose proof (every_from_length (Pos.to_nat p) l 0 Hp) as E. cbn zeta in E.
  rewrite positive_nat_Z, Z.sub_0_r in E. destruct E as [E0 E1].
  set (n := Z.of_nat (length (every_from (Pos.to_nat p) 0 l))) in *.
  assert (Zpos p * (n - 1) < Z.of_nat (length l) <= Zpos p * n) as Hb.
  { destruct (Z.le_gt_cases (Z.of_nat (length l)) 0) as [H|H].
    - rewrite (E0 H). lia.
    - apply E1, H. }
  split; [|split; [lia | split; [lia|]]].
  - intros j. now rewrite every_from_nth by lia.
  - apply (Z.div_unique_pos _ _ _ (Z.of_nat (length l) + Zpos p - 1 - Zpos p * n));
      lia.
Qed.

Lemma strided_incl {A : Type} (k : Z) (x : A) (l : list A) :
  In x (strided k l) -> In x l.
Proof.
  destruct k as [|p|p]; simpl; [easy | apply every_from_incl |].
  intros H. apply every_from_incl in H. now apply in_rev.
Qed.

Lemma slice_step_int (a : Z) : a <> 0 -> slice_step (Py.Int a) = Ok a.
Proof. destruct a; [congruence | reflexivity..]. Qed.

(** ** Burn-in and reset *)

(** C8: the burn-in takes exactly [nburnin] iterations (none when [nburnin]
    is negative) and retains none of them; after the reset the history is
    empty, the counters are zero and the position is the one the burn-in
    ended on. From then on the history holds the positions visited after
    that one, and every row of a returned chain is the position of a walker
    at the coldest temperature in one of these. *)
Theorem burn_in_discarded : forall (g : rng) (s0 : run),
  start g = Ok s0 ->
  let burnt := burn_in s0 in
  let entry := after_burn_in burnt in
  time (sampler burnt) = Z.max 0 nburnin /\
  (random burnt, pos burnt) = drift (Z.to_nat nburnin) (random s0, pos s0) /\
  chain (sampler burnt) = [] /\
  sampler entry = mk_sampler 0 [] 0 0 /\
  (random entry, pos entry) = (random burnt, pos burnt) /\
  (forall (k : nat) (s : run),
     reach k entry s ->
     chain (sampler s) =
       orbit (Z.to_nat (time (sampler s))) (random entry, pos entry)) /\
  (forall (fuel : nat) (out : Np.ndarray float),
     ez_emcee fuel g = Done out ->
     forall r : list float,
       In r (Np.rows out) ->
       exists (i w : nat),
         (w < walkers)%nat /\
         r = nth w (hd [] (snd (drift (S i) (random entry, pos entry)))) []).
Proof.
  intros g s0 Hstart burnt entry.
  pose proof (entry_effect g s0 Hstart) as E. cbn zeta in E.
  fold burnt in E. fold entry in E.
  destruct E as (Ht & _ & Hc & Hge & Hsmp & Hpos & _ & _ & Hn).
  assert (Hchain : forall (k : nat) (s : run),
            reach k entry s ->
            chain (sampler s) =
              orbit (Z.to_nat (time (sampler s))) (random entry, pos entry)).
  { intros k s Hreach. apply reach_chain in Hreach; [|lia].
    rewrite Hsmp in Hreach. cbn [time chain app] in Hreach.
    destruct Hreach as [_ ->]. now rewrite Z.sub_0_r. }
  repeat split; try assumption.
  intros fuel out Hrun r Hr.
  unfold ez_emcee in Hrun. rewrite Hstart in Hrun. fold burnt entry in Hrun.
  destruct (while fuel entry) as [s| |] eqn:Hw; try discriminate.
  destruct (thin_flatten s) as [out'|] eqn:Hthin; [|discriminate].
  injection Hrun as ->.
  apply while_done in Hw. destruct Hw as (k & _ & Hreach & _).
  apply Hchain in Hreach.
  unfold thin_flatten, coldest_chain, bind in Hthin.
  destruct (ntemps =? 0)%nat; [discriminate|].
  destruct (slice_step (acl s)) as [a|]; [|discriminate].
  destruct (ndim =? 0)%nat; [discriminate|].
  injection Hthin as <-. cbn [Np.rows] in Hr.
  apply in_concat in Hr. destruct Hr as (l & Hl & Hr).
  rewrite map_map in Hl. apply in_map_iff in Hl.
  destruct Hl as (w & <- & Hw). apply in_seq in Hw.
  apply strided_incl in Hr. apply in_map_iff in Hr.
  destruct Hr as (e & <- & He). rewrite Hreach in He.
  unfold orbit in He. apply in_map_iff in He. destruct He as (i & <- & _).
  exists i, w. split; [lia | reflexivity].
Qed.

(** ** Leaving the loop *)

Lemma exit_state (s : run) :
  loop_invariant s -> continue s = Ok false ->
  exists a : Z, acl s = Py.Int a /\ 1 <= a /\ nindep * a <= time (sampler s).
Proof.
  intros (_ & _ & Hacl) Hstop. rewrite continue_cases in Hstop.
  destruct (acl s) as [a|f].
  - exists a. split; [reflexivity|]. split; [exact Hacl|].
    destruct (Py.isfinite (Py.Int a)) as [[|]|]; try discriminate.
    cbn [Py.mul] in Hstop. injection Hstop as Hlt.
    unfold Py.lt in Hlt. apply Z.ltb_ge in Hlt. exact Hlt.
  - cbn [Py.isfinite] in Hstop. rewrite Hacl in Hstop. discriminate.
Qed.

(** ** Flattening *)

Lemma length_concat_const {A : Type} (c : nat) (ls : list (list A)) :
  Forall (fun l => length l = c) ls ->
  length (concat ls) = (length ls * c)%nat.
Proof.
  induction 1 as [|l ls Hl _ IH]; [reflexivity|].
  simpl. rewrite length_app, IH, Hl. reflexivity.
Qed.

Lemma nth_error_concat_const {A : Type} (c : nat) (ls : list (list A)) :
  Forall (fun l => length l = c) ls ->
  forall i j : nat,
    (j < c)%nat ->
    nth_error (concat ls) (i * c + j) =
    match nth_error ls i with
    | Some l => nth_error l j
    | None => None
    end.
Proof.
  induction 1 as [|l ls Hl Hls IH]; intros i j Hj.
  - simpl. destruct i; now rewrite nth_error_nil.
  - simpl concat. destruct i as [|i].
    + simpl. apply nth_error_app1. lia.
    + rewrite nth_error_app2 by (rewrite Hl; simpl; lia).
      replace (S i * c + j - length l)%nat with (i * c + j)%nat
        by (rewrite Hl; simpl; lia).
      simpl nth_error. now apply IH.
Qed.

(** C9: when the loop is left, the autocorrelation length is an integer not
    less than one, so that it is a valid slice step. The slice
    [chain[0, :, ::acl, :]] that [ez_emcee] then takes keeps, for each of the
    [nwalkers] walkers, the iterations of index [0], [acl], [2 acl], ...:
    [kept = ceil(sampler.time / acl)] of them, and the array returned has
    [nwalkers * kept] rows, the [kept] rows of a walker after those of the
    walker before. The thinning raises nothing on account of the step: the
    call fails there only without a temperature or without a dimension. *)
Theorem thinning_stride : forall (g : rng) (s0 : run) (fuel : nat) (s : run),
  start g = Ok s0 ->
  while fuel (after_burn_in (burn_in s0)) = Done s ->
  exists (a : Z) (kept : nat),
    acl s = Py.Int a /\ 1 <= a /\
    slice_step (acl s) = Ok a /\
    Z.of_nat kept = (time (sampler s) + a - 1) / a /\
    a * (Z.of_nat kept - 1) < time (sampler s) <= a * Z.of_nat kept /\
    (forall cold : list (list (list float)),
       coldest_chain s = Ok cold ->
       length cold = walkers /\
       Forall (fun w =>
                 Z.of_nat (length w) = time (sampler s) /\
                 length (strided a w) = kept /\
                 forall j : nat,
                   nth_error (strided a w) j = nth_error w (j * Z.to_nat a))
              cold) /\
    (ntemps = 0%nat ->
     thin_flatten s = Raise IndexError /\
     ez_emcee fuel g = Failed IndexError) /\
    (ntemps <> 0%nat -> ndim = 0%nat ->
     thin_flatten s = Raise ValueError /\
     ez_emcee fuel g = Failed ValueError) /\
    (ntemps <> 0%nat -> ndim <> 0%nat ->
     exists (cold : list (list (list float))) (out : Np.ndarray float),
       coldest_chain s = Ok cold /\
       thin_flatten s = Ok out /\
       ez_emcee fuel g = Done out /\
       Np.rows out = concat (map (strided a) cold) /\
       Np.lead out = [(walkers * kept)%nat] /\
       Np.ncol out = ndim /\
       length (Np.rows out) = (walkers * kept)%nat /\
       forall w j : nat,
         (w < walkers)%nat -> (j < kept)%nat ->
         nth_error (Np.rows out) (w * kept + j) =
         option_map (fun e : ensemble => nth w (hd [] e) [])
                    (nth_error (chain (sampler s)) (j * Z.to_nat a))).
Proof.
  intros g s0 fuel s Hstart Hw.
  pose proof Hw as Hdone. apply while_done in Hdone.
  destruct Hdone as (k & _ & Hreach & Hstop).
  pose proof (reach_invariant k _ s Hreach (entry_invariant g s0 Hstart)) as Hinv.
  destruct (exit_state s Hinv Hstop) as (a & Ha & Hpos & _).
  destruct Hinv as (_ & Hlen & _).
  pose (walker := fun w : nat =>
          map (fun e : ensemble => nth w (hd [] e) []) (chain (sampler s))).
  pose (kept := Z.to_nat ((time (sampler s) + a - 1) / a)).
  assert (Hwalker : forall w, Z.of_nat (length (walker w)) = time (sampler s)).
  { intros w. unfold walker. now rewrite length_map. }
  assert (Hq : 0 <= (time (sampler s) + a - 1) / a) by (apply Z.div_pos; lia).
  assert (Hkept : forall w, length (strided a (walker w)) = kept).
  { intros w. destruct (strided_positive a (walker w) Hpos) as (_ & _ & _ & P).
    rewrite Hwalker in P. unfold kept. lia. }
  assert (Hstep : slice_step (acl s) = Ok a)
    by (rewrite Ha; apply slice_step_int; lia).
  assert (Hcold : ntemps <> 0%nat ->
                  coldest_chain s = Ok (map walker (seq 0 walkers))).
  { intros Hnt. unfold coldest_chain. apply Nat.eqb_neq in Hnt.
    now rewrite Hnt. }
  assert (Hez : ez_emcee fuel g = match thin_flatten s with
                                  | Raise e => Failed e
                                  | Ok out => Done out
                                  end).
  { unfold ez_emcee. now rewrite Hstart, Hw. }
  assert (Hall : Forall (fun l => length l = kept)
                        (map (strided a) (map walker (seq 0 walkers)))).
  { apply Forall_forall. intros l Hl. apply in_map_iff in Hl.
    destruct Hl as (l' & <- & Hl'). apply in_map_iff in Hl'.
    destruct Hl' as (w & <- & _). apply Hkept. }
  exists a, kept.
  split; [exact Ha|]. split; [exact Hpos|]. split; [exact Hstep|].
  split; [unfold kept; now rewrite Z2Nat.id|].
  split.
  { destruct (strided_positive a (walker 0%nat) Hpos) as (_ & P1 & P2 & _).
    rewrite Hwalker, Hkept in P1, P2. lia. }
  split.
  { intros cold Hc. destruct (Nat.eq_dec ntemps 0) as [Hz | Hnz].
    - unfold coldest_chain in Hc. rewrite Hz in Hc. discriminate.
    - rewrite (Hcold Hnz) in Hc. injection Hc as <-.
      split; [now rewrite length_map, length_seq|].
      apply Forall_forall. intros l Hl. apply in_map_iff in Hl.
      destruct Hl as (w & <- & _).
      split; [apply Hwalker|]. split; [apply Hkept|].
      apply (strided_positive a (walker w) Hpos). }
  split.
  { intros Hz. assert (Ht : thin_flatten s = Raise IndexError).
    { unfold thin_flatten, coldest_chain, bind. now rewrite Hz. }
    split; [exact Ht | now rewrite Hez, Ht]. }
  split.
  { intros Hnz Hd. assert (Ht : thin_flatten s = Raise ValueError).
    { unfold thin_flatten, bind. rewrite (Hcold Hnz), Hstep, Hd. reflexivity. }
    split; [exact Ht | now rewrite Hez, Ht]. }
  intros Hnz Hd.
  exists (map walker (seq 0 walkers)).
  exists (Np.mk_nd
            [length (concat (map (strided a) (map walker (seq 0 walkers))))]
            ndim
            (concat (map (strided a) (map walker (seq 0 walkers))))).
  assert (Ht : thin_flatten s =
               Ok (Np.mk_nd
                     [length (concat (map (strided a)
                                          (map walker (seq 0 walkers))))]
                     ndim
                     (concat (map (strided a) (map walker (seq 0 walkers)))))).
  { unfold thin_flatten, bind. rewrite (Hcold Hnz), Hstep.
    apply Nat.eqb_neq in Hd. now rewrite Hd. }
  assert (Hrows : length (concat (map (strided a) (map walker (seq 0 walkers))))
                  = (walkers * kept)%nat).
  { now rewrite (length_concat_const kept _ Hall), !length_map, length_seq. }
  split; [exact (Hcold Hnz)|]. split; [exact Ht|].
  split; [now rewrite Hez, Ht|].
  cbn [Np.rows Np.lead Np.ncol].
  split; [reflexivity|]. split; [now rewrite Hrows|].
  split; [reflexivity|]. split; [exact Hrows|].
  intros w j Hwlt Hj.
  rewrite (nth_error_concat_const kept _ Hall w j Hj).
  rewrite !nth_error_map, nth_error_seq.
  replace (w <? walkers)%nat with true by (symmetry; apply Nat.ltb_lt; lia).
  cbn [option_map Nat.add].
  destruct (strided_positive a (walker w) Hpos) as (Hnth & _).
  rewrite Hnth. unfold walker. now rewrite nth_error_map.
Qed.

(** ** The returned chain *)

Lemma shaped_walker (t w d : nat) (e : ensemble) (i : nat) :
  shaped t w d e -> t <> 0%nat -> (i < w)%nat ->
  length (nth i (hd [] e) []) = d.
Proof.
  intros [Ht He] Hnz Hi. destruct e as [|c e]; [simpl in Ht; lia|].
  inversion He as [|? ? [Hc Hws] _]; subst. simpl.
  rewrite Forall_forall in Hws. apply Hws, nth_In. lia.
Qed.

(** The sampler keeps the shape of the ensemble it is given. *)
Hypothesis uniform_shaped : forall g l h t w d,
  shaped t w d (snd (uniform g l h t w d)).
Hypothesis kernel_shaped : forall g e t w d,
  shaped t w d e -> shaped t w d (snd (fst (kernel g e))).

Lemma drift_shaped (t w d n : nat) (ge : rng * ensemble) :
  shaped t w d (snd ge) -> shaped t w d (snd (drift n ge)).
Proof.
  intros H. induction n as [|n IH]; [exact H|].
  rewrite drift_succ. apply kernel_shaped, IH.
Qed.

(** C2: a call that returns gives the history of the coldest temperature,
    walker after walker, each thinned to the iterations of index [0], [acl],
    [2 acl], ...: a two-dimensional array of [ndim] columns and
    [nwalkers * ceil(sampler.time / acl)] rows, which is not less than
    [nindep * nwalkers]. *)
Theorem returned_chain : forall (fuel : nat) (g : rng) (out : Np.ndarray float),
  ez_emcee fuel g = Done out ->
  exists (s0 s : run) (a : Z),
    start g = Ok s0 /\
    while fuel (after_burn_in (burn_in s0)) = Done s /\
    acl s = Py.Int a /\ 1 <= a /\
    Np.rows out =
      concat (map (fun w =>
                     strided a (map (fun e : ensemble => nth w (hd [] e) [])
                                    (chain (sampler s))))
                  (seq 0 walkers)) /\
    (forall (l : list (list float)) (j : nat),
       nth_error (strided a l) j = nth_error l (j * Z.to_nat a)) /\
    Np.wf out /\
    Np.lead out = [length (Np.rows out)] /\
    Np.ncol out = ndim /\
    Z.of_nat (length (Np.rows out)) =
      Z.of_nat walkers * ((time (sampler s) + a - 1) / a) /\
    nindep * Z.of_nat walkers <= Z.of_nat (length (Np.rows out)).
Proof.
  intros fuel g out Hrun. unfold ez_emcee in Hrun.
  destruct (start g) as [s0|] eqn:Hstart; [|discriminate].
  destruct (while fuel _) as [s| |] eqn:Hw; try discriminate.
  destruct (thin_flatten s) as [out'|] eqn:Hthin; [|discriminate].
  injection Hrun as ->. exists s0, s.
  pose proof Hw as Hdone. apply while_done in Hdone.
  destruct Hdone as (k & _ & Hreach & Hstop).
  pose proof (reach_invariant k _ s Hreach (entry_invariant g s0 Hstart)) as Hinv.
  destruct (exit_state s Hinv Hstop) as (a & Ha & Hpos & Hbudget).
  exists a. split; [reflexivity|]. split; [exact Hw|].
  split; [exact Ha|]. split; [exact Hpos|].
  unfold thin_flatten, coldest_chain, bind in Hthin.
  destruct (ntemps =? 0)%nat eqn:Hnt; [discriminate|].
  rewrite Ha, slice_step_int in Hthin by lia.
  destruct (ndim =? 0)%nat; [discriminate|].
  injection Hthin as <-. cbn [Np.rows Np.lead Np.ncol]. rewrite map_map.
  set (walker := fun w : nat =>
         strided a (map (fun e : ensemble => nth w (hd [] e) [])
                        (chain (sampler s)))).
  destruct Hinv as (_ & Hlen & _).
  assert (Hkept : Forall (fun l => length l =
                    Z.to_nat ((time (sampler s) + a - 1) / a))
                    (map walker (seq 0 walkers))).
  { apply Forall_forall. intros l Hl. apply in_map_iff in Hl.
    destruct Hl as (w & <- & _). unfold walker.
    pose proof (strided_positive a
      (map (fun e : ensemble => nth w (hd [] e) []) (chain (sampler s))) Hpos) as P.
    rewrite length_map, Hlen in P. destruct P as (_ & _ & _ & P). lia. }
  assert (Hrows : Z.of_nat (length (concat (map walker (seq 0 walkers)))) =
                  Z.of_nat walkers * ((time (sampler s) + a - 1) / a)).
  { rewrite (length_concat_const _ _ Hkept), length_map, length_seq.
    rewrite Nat2Z.inj_mul, Z2Nat.id; [reflexivity|].
    apply Z.div_pos; lia. }
  split; [reflexivity|].
  split; [intros l j; apply (strided_positive a l Hpos)|].
  split; [|split; [reflexivity | split; [reflexivity | split; [exact Hrows|]]]].
  - split; [cbn [Np.lead Np.rows Np.size fold_right]; lia|].
    cbn [Np.rows Np.ncol]. apply Forall_forall. intros r Hr.
    apply in_concat in Hr. destruct Hr as (l & Hl & Hr).
    apply in_map_iff in Hl. destruct Hl as (w & <- & Hwin).
    apply in_seq in Hwin. apply strided_incl in Hr.
    apply in_map_iff in Hr. destruct Hr as (e & <- & He).
    apply (shaped_walker ntemps walkers ndim); [ | | lia].
    + pose proof (entry_effect g s0 Hstart) as E. cbn zeta in E.
      destruct E as (_ & _ & _ & Hge & Hsmp & Hposn & _ & _ & Hn).
      apply reach_chain in Hreach; [|lia].
      rewrite Hsmp in Hreach. cbn [time chain app] in Hreach.
      destruct Hreach as [_ Hc]. rewrite Hc in He.
      unfold orbit in He. apply in_map_iff in He. destruct He as (i & <- & _).
      apply drift_shaped. rewrite Hposn, Hge. apply drift_shaped.
      apply start_effect in Hstart. destruct Hstart as [_ ->].
      cbn [snd pos]. apply uniform_shaped.
    + now apply Nat.eqb_neq.
  - rewrite Hrows.
    assert (nindep <= (time (sampler s) + a - 1) / a).
    { apply Z.div_le_lower_bound; lia. }
    nia.
Qed.

(** ** Configurations that are not checked *)


(** ** Further properties of the loop *)

Lemma reach_count (k : nat) (s s' : run) :
  reach k s s' ->
  count (bar s') - count (bar s) = time (sampler s') - time (sampler s).
Proof.
  induction 1 as [s | k s s1 s2 _ Hr _ IH]; [lia|].
  apply round_effect in Hr.
  destruct Hr as (_ & _ & _ & _ & _ & Ht & _ & Hn & _).
  lia.
Qed.

(** X1: the progress bar is ticked once per iteration: whenever the loop
    condition is evaluated, its count is the number of burn-in iterations
    plus [sampler.time]. *)
Theorem one_tick_per_iteration : forall (g : rng) (s0 : run) (k : nat) (s : run),
  start g = Ok s0 ->
  reach k (after_burn_in (burn_in s0)) s ->
  count (bar s) = Z.max 0 nburnin + time (sampler s).
Proof.
  intros g s0 k s Hstart Hreach.
  pose proof (entry_effect g s0 Hstart) as E. cbn zeta in E.
  destruct E as (_ & Hc & _ & _ & Hsmp & _ & Hbar & _ & _).
  apply reach_count in Hreach. rewrite Hbar, Hc, Hsmp in Hreach.
  cbn [time] in Hreach. lia.
Qed.

(** A round entered with an integer length raises nothing. *)
Lemma round_int_ok (s : run) (a : Z) :
  acl s = Py.Int a -> exists s', round s = Ok s'.
Proof.
  intros Ha. unfold round. rewrite Ha. cbn [Py.mul bind].
  rewrite max_of_ints. cbn [Py.add bind]. eexists. reflexivity.
Qed.

(** So does the first round, when [nindep] fits a float. *)
Lemma round_nan_ok (s : run) (f : float) :
  acl s = Py.Float F64.nan -> F64.of_int nindep = Ok f ->
  exists s', round s = Ok s'.
Proof.
  intros Ha Hf. unfold round. rewrite Ha.
  destruct (Py.mul (Py.Int nindep) (Py.Float F64.nan)) as [b|e] eqn:Hm.
  - apply mul_nan in Hm. subst b. cbn [bind]. rewrite max_nan.
    cbn [Py.add bind]. eexists. reflexivity.
  - unfold Py.mul in Hm. rewrite Hf in Hm. discriminate.
Qed.

Lemma continue_int (s : run) (a : Z) :
  acl s = Py.Int a -> 1 <= a < 2 ^ 64 ->
  continue s = Ok (time (sampler s) <? nindep * a).
Proof.
  intros Ha Hr. rewrite continue_cases, Ha. cbn [Py.isfinite Py.mul].
  replace ((- 2 ^ 63 <=? a) && (a <? 2 ^ 64))%bool with true; [reflexivity|].
  symmetry. apply andb_true_iff. split; [apply Z.leb_le | apply Z.ltb_lt]; lia.
Qed.

Section BoundedEstimate.

(** The estimates of the autocorrelation length are finite and bounded. *)
Variable bound : Z.
Hypothesis bound_small : bound < 2 ^ 64.
Hypothesis estimate_bounded : forall h : list ensemble,
  F64.isfinite (autocorr h) = true /\ F64.ceil (autocorr h) <= bound.

Lemma while_bounded (n : nat) : forall (s : run) (a : Z),
  acl s = Py.Int a -> 1 <= a <= Z.max 1 bound ->
  0 < nsteps s -> 0 <= time (sampler s) ->
  nindep * Z.max 1 bound <= time (sampler s) + nsteps s * (2 ^ Z.of_nat n - 1) ->
  exists s', while n s = Done s'.
Proof.
  induction n as [|n IH]; intros s a Ha Hr Hn Ht Hb.
  - cbn [while]. rewrite (continue_int s a Ha) by lia.
    destruct (Z.ltb_spec (time (sampler s)) (nindep * a)) as [Hlt|Hge];
      [|now exists s].
    exfalso. simpl in Hb. nia.
  - cbn [while]. rewrite (continue_int s a Ha) by lia.
    destruct (Z.ltb_spec (time (sampler s)) (nindep * a)) as [Hlt|Hge];
      [|now exists s].
    destruct (round_int_ok s a Ha) as [s1 Hround]. rewrite Hround.
    pose proof Hround as Hr1. apply round_effect in Hr1.
    destruct Hr1 as (_ & _ & _ & _ & _ & Ht1 & _ & _ & _ & _ & Hacl & Hs1).
    rewrite refresh_acl_cases in Hacl.
    destruct (estimate_bounded (chain (sampler s1))) as [Hfin Hceil].
    rewrite Hfin in Hacl.
    apply (IH s1 _ Hacl); try lia.
    rewrite Ht1, Hs1. rewrite Nat2Z.inj_succ, Z.pow_succ_r in Hb by lia. lia.
Qed.

Lemma entry_modest (g : rng) (s0 : run) :
  start g = Ok s0 -> 0 < nindep ->
  modest (Z.max 1 bound) (after_burn_in (burn_in s0)).
Proof.
  intros Hstart Hni.
  pose proof (entry_effect g s0 Hstart) as E. cbn zeta in E.
  destruct E as (_ & _ & _ & _ & Hsmp & _ & Hbar & Hnan & Hsteps).
  unfold modest. rewrite Hsmp, Hsteps, Hnan, Hbar. cbn [time].
  split; [reflexivity|]. split; [lia|]. split; [|left; now split].
  exists (nburnin + nindep * 64). split; [|nia].
  apply start_effect in Hstart. destruct Hstart as [_ ->].
  unfold burn_in.
  match goal with |- context [sample nburnin false ?x] =>
    pose proof (sample_effect nburnin false x) as E end.
  cbn zeta in E. destruct E as (_ & _ & _ & _ & Htot & _).
  rewrite Htot. reflexivity.
Qed.

Lemma round_modest (s s' : run) :
  0 < nindep ->
  modest (Z.max 1 bound) s -> continue s = Ok true -> round s = Ok s' ->
  modest (Z.max 1 bound) s'.
Proof.
  intros Hni (Hns & Ht & _ & Hacl) Hc Hr.
  apply round_effect in Hr.
  destruct Hr as (budget & t' & Hmul & Hadd & _ & Ht1 & _ & _ & Htot & _ & Hacl' & Hs).
  rewrite refresh_acl_cases in Hacl'.
  destruct (estimate_bounded (chain (sampler s'))) as [Hfin Hceil].
  rewrite Hfin in Hacl'.
  unfold modest. split; [lia|]. split; [lia|]. split.
  - destruct Hacl as [[Hnan Hz] | (a & Ha & Hra)].
    + rewrite Hnan in Hmul. apply mul_nan in Hmul. subst budget.
      rewrite max_nan in Hadd. cbn [Py.add] in Hadd. injection Hadd as <-.
      eexists. split; [exact Htot|]. nia.
    + rewrite Ha in Hmul. cbn [Py.mul] in Hmul. injection Hmul as <-.
      rewrite max_of_ints in Hadd. cbn [Py.add] in Hadd. injection Hadd as <-.
      rewrite (continue_int s a Ha) in Hc by lia.
      injection Hc as Hlt. apply Z.ltb_lt in Hlt.
      eexists. split; [exact Htot|]. nia.
  - right. eexists. split; [exact Hacl'|]. lia.
Qed.

Lemma reach_modest (k : nat) (s s' : run) :
  0 < nindep ->
  reach k s s' -> modest (Z.max 1 bound) s -> modest (Z.max 1 bound) s'.
Proof.
  intros Hni. induction 1 as [s | k s s1 s2 Hc Hr _ IH]; intros Hm; [exact Hm|].
  apply IH. exact (round_modest s s1 Hni Hm Hc Hr).
Qed.

(** X2: with finite estimates of the autocorrelation length bounded by
    [bound], a non-negative [nburnin], a positive [nindep] that fits a float
    and [nburnin + 64 * nindep * max(1, bound) + 64] below [2^63], a call
    whose first draw succeeds, with at least one temperature and one
    dimension, returns a chain as soon as the rounds allowed make
    [64 * (2^rounds - 1)] iterations reach [nindep * max(1, bound)]. In
    every state the loop goes through, the total of the progress bar is an
    integer between 0 and [2^63], and the autocorrelation length is the NaN
    of line 113 or an integer between 1 and [2^63]. *)
Theorem ez_emcee_terminates :
  forall (g : rng) (s0 : run) (f : float) (n : nat),
    start g = Ok s0 ->
    ntemps <> 0%nat -> ndim <> 0%nat ->
    F64.of_int nindep = Ok f ->
    0 <= nburnin -> 0 < nindep ->
    nburnin + 64 * nindep * Z.max 1 bound + 64 < 2 ^ 63 ->
    nindep * Z.max 1 bound <= 64 * (2 ^ Z.of_nat (S n) - 1) ->
    (exists out : Np.ndarray float, ez_emcee (S n) g = Done out) /\
    total (bar s0) = Py.Int (nburnin + nindep * 64) /\
    0 <= nburnin + nindep * 64 < 2 ^ 63 /\
    forall (k : nat) (s : run),
      reach k (after_burn_in (burn_in s0)) s ->
      (exists t : Z, total (bar s) = Py.Int t /\ 0 <= t < 2 ^ 63) /\
      (acl s = Py.Float F64.nan \/
       exists a : Z, acl s = Py.Int a /\ 1 <= a < 2 ^ 63).
Proof.
  intros g s0 f n Hstart Hnt Hnd Hf Hnb Hni Hsmall Hb.
  assert (Hm : 1 <= Z.max 1 bound) by lia.
  split; [|split; [|split]].
  - pose proof (entry_effect g s0 Hstart) as E. cbn zeta in E.
    destruct E as (_ & _ & _ & _ & Hsmp & _ & _ & Hnan & Hsteps).
    set (entry := after_burn_in (burn_in s0)) in *.
    destruct (round_nan_ok entry f Hnan Hf) as [s1 Hround].
    pose proof Hround as Hr1. apply round_effect in Hr1.
    destruct Hr1 as (_ & _ & _ & _ & _ & Ht1 & _ & _ & _ & _ & Hacl & Hs1).
    rewrite refresh_acl_cases in Hacl.
    destruct (estimate_bounded (chain (sampler s1))) as [Hfin Hceil].
    rewrite Hfin in Hacl. rewrite Hsmp, Hsteps in Ht1. cbn [time] in Ht1.
    destruct (while_bounded n s1 _ Hacl) as [s Hwhile]; try lia.
    { rewrite Ht1, Hs1, Hsteps.
      rewrite Nat2Z.inj_succ, Z.pow_succ_r in Hb by lia. lia. }
    assert (Hw : while (S n) entry = Done s).
    { cbn [while]. rewrite continue_cases, Hnan.
      cbn [Py.isfinite F64.isfinite F64.nan]. now rewrite Hround. }
    pose proof Hw as Hdone. apply while_done in Hdone.
    destruct Hdone as (k & _ & Hreach & Hstop).
    pose proof (reach_invariant k _ s Hreach (entry_invariant g s0 Hstart)) as Hinv.
    destruct (exit_state s Hinv Hstop) as (a & Ha & Hpos & _).
    unfold ez_emcee. rewrite Hstart. fold entry. rewrite Hw.
    unfold thin_flatten, coldest_chain, bind.
    apply Nat.eqb_neq in Hnt, Hnd. rewrite Hnt, Ha, slice_step_int, Hnd by lia.
    eexists. reflexivity.
  - apply start_effect in Hstart. destruct Hstart as [_ ->]. reflexivity.
  - nia.
  - intros k s Hreach.
    pose proof (reach_modest k _ s Hni Hreach (entry_modest g s0 Hstart Hni))
      as (_ & _ & (t & Htot & Hlo & Hhi) & Hacl).
    split.
    + exists t. split; [exact Htot|]. lia.
    + destruct Hacl as [[Hnan _] | (a & Ha & Hra)]; [now left|].
      right. exists a. split; [exact Ha|]. nia.
Qed.

End BoundedEstimate.

(** ** Further properties of the returned chain *)

(** The loop is left in one state only. *)
Lemma reach_exit_unique (n : nat) (x y : run) :
  reach n x y ->
  forall (m : nat) (z : run),
    reach m x z -> continue y = Ok false -> continue z = Ok false -> y = z.
Proof.
  induction 1 as [x | n x x1 y Hc Hr _ IH]; intros m z Hz Hy Hz'.
  - inversion Hz; subst; [reflexivity | congruence].
  - inversion Hz as [|k ? s' ? Hc' Hr' Hrest]; subst; [congruence|].
    assert (s' = x1) by congruence. subst s'. exact (IH _ _ Hrest Hy Hz').
Qed.

(** What a call that returns has gone through. *)
Lemma returned_run (fuel : nat) (g : rng) (out : Np.ndarray float) :
  ez_emcee fuel g = Done out ->
  exists (s0 s : run) (k : nat) (a : Z),
    start g = Ok s0 /\
    reach k (after_burn_in (burn_in s0)) s /\
    continue s = Ok false /\
    loop_invariant s /\
    acl s = Py.Int a /\ 1 <= a /\
    Np.rows out =
      concat (map (fun w =>
                     strided a (map (fun e : ensemble => nth w (hd [] e) [])
                                    (chain (sampler s))))
                  (seq 0 walkers)).
Proof.
  intros Hrun. unfold ez_emcee in Hrun.
  destruct (start g) as [s0|] eqn:Hstart; [|discriminate].
  destruct (while fuel _) as [s| |] eqn:Hw; try discriminate.
  destruct (thin_flatten s) as [out'|] eqn:Hthin; [|discriminate].
  injection Hrun as ->. apply while_done in Hw.
  destruct Hw as (k & _ & Hreach & Hstop).
  pose proof (reach_invariant k _ s Hreach (entry_invariant g s0 Hstart)) as Hinv.
  destruct (exit_state s Hinv Hstop) as (a & Ha & Hpos & _).
  exists s0, s, k, a. repeat (split; [assumption || reflexivity|]).
  unfold thin_flatten, coldest_chain, bind in Hthin.
  destruct (ntemps =? 0)%nat; [discriminate|].
  rewrite Ha, slice_step_int in Hthin by lia.
  destruct (ndim =? 0)%nat; [discriminate|].
  injection Hthin as <-. cbn [Np.rows]. now rewrite map_map.
Qed.

(** X4: the rows of the returned chain go walker after walker: with [kept]
    rows for each walker, row [w * kept + j] is the position of walker [w]
    at the coldest temperature in the retained iteration of index
    [j * acl]. *)
Theorem returned_rows_order :
  forall (fuel : nat) (g : rng) (out : Np.ndarray float),
    ez_emcee fuel g = Done out ->
    exists (s0 s : run) (a : Z) (kept : nat),
      start g = Ok s0 /\
      while fuel (after_burn_in (burn_in s0)) = Done s /\
      acl s = Py.Int a /\
      Z.of_nat kept = (time (sampler s) + a - 1) / a /\
      forall w j : nat,
        (w < walkers)%nat -> (j < kept)%nat ->
        nth_error (Np.rows out) (w * kept + j) =
        option_map (fun e : ensemble => nth w (hd [] e) [])
                   (nth_error (chain (sampler s)) (j * Z.to_nat a)).
Proof.
  intros fuel g out Hrun.
  destruct (returned_run fuel g out Hrun)
    as (s0 & s & k & a & Hstart & Hreach & Hstop & Hinv & Ha & Hpos & Hrows).
  assert (Hw : while fuel (after_burn_in (burn_in s0)) = Done s).
  { unfold ez_emcee in Hrun. rewrite Hstart in Hrun.
    destruct (while fuel _) as [s'| |] eqn:Hw; try discriminate.
    pose proof Hw as Hd. apply while_done in Hd.
    destruct Hd as (k' & _ & Hreach' & _).
    f_equal.
    apply while_done in Hw. destruct Hw as (k2 & _ & Hr2 & Hs2).
    exact (reach_exit_unique _ _ _ Hr2 _ _ Hreach Hs2 Hstop). }
  exists s0, s, a, (Z.to_nat ((time (sampler s) + a - 1) / a)).
  split; [exact Hstart|]. split; [exact Hw|]. split; [exact Ha|].
  destruct Hinv as (_ & Hlen & _).
  assert (Hnn : 0 <= (time (sampler s) + a - 1) / a) by (apply Z.div_pos; lia).
  split; [lia|]. intros w j Hwlt Hj.
  set (walker := fun w : nat =>
         strided a (map (fun e : ensemble => nth w (hd [] e) [])
                        (chain (sampler s)))) in *.
  rewrite Hrows.
  rewrite (nth_error_concat_const
             (Z.to_nat ((time (sampler s) + a - 1) / a))).
  - rewrite nth_error_map, nth_error_seq.
    replace (w <? walkers)%nat with true by (symmetry; apply Nat.ltb_lt; lia).
    cbn [option_map Nat.add]. unfold walker.
    destruct (strided_positive a
      (map (fun e : ensemble => nth w (hd [] e) []) (chain (sampler s))) Hpos)
      as (Hnth & _).
    now rewrite Hnth, nth_error_map.
  - apply Forall_forall. intros l Hl. apply in_map_iff in Hl.
    destruct Hl as (w' & <- & _). unfold walker.
    destruct (strided_positive a
      (map (fun e : ensemble => nth w' (hd [] e) []) (chain (sampler s))) Hpos)
      as (_ & _ & _ & P).
    rewrite length_map, Hlen in P. lia.
  - exact Hj.
Qed.

(** X5: the loop always runs at least one round, whatever [nindep]: a call
    that returns has taken at least 64 iterations after the burn-in, and its
    chain has at least one row for each walker. *)
Theorem at_least_one_round :
  forall (fuel : nat) (g : rng) (out : Np.ndarray float),
    ez_emcee fuel g = Done out ->
    (1 <= fuel)%nat /\
    Z.of_nat walkers <= Z.of_nat (length (Np.rows out)) /\
    exists (s0 s : run),
      start g = Ok s0 /\
      while fuel (after_burn_in (burn_in s0)) = Done s /\
      64 <= time (sampler s).
Proof.
  intros fuel g out Hrun.
  destruct (returned_run fuel g out Hrun)
    as (s0 & s & k & a & Hstart & Hreach & Hstop & Hinv & Ha & Hpos & Hrows).
  pose proof (entry_effect g s0 Hstart) as E. cbn zeta in E.
  destruct E as (_ & _ & _ & _ & Hsmp & _ & _ & Hnan & Hsteps).
  assert (Hgo : continue (after_burn_in (burn_in s0)) = Ok true).
  { rewrite continue_cases, Hnan. reflexivity. }
  assert (Hk : (1 <= k)%nat).
  { destruct k; [|lia]. inversion Hreach; subst. congruence. }
  pose proof (reach_growth k _ s Hreach) as G.
  rewrite Hsteps, Hsmp in G. cbn [time] in G.
  destruct G as [_ Gt]; [lia|].
  assert (H2 : 2 <= 2 ^ Z.of_nat k).
  { replace (Z.of_nat k) with (Z.succ (Z.of_nat (k - 1))) by lia.
    rewrite Z.pow_succ_r by lia.
    assert (0 < 2 ^ Z.of_nat (k - 1)) by (apply Z.pow_pos_nonneg; lia). lia. }
  unfold ez_emcee in Hrun. rewrite Hstart in Hrun.
  destruct (while fuel _) as [s'| |] eqn:Hw; try discriminate.
  assert (Hfuel : (1 <= fuel)%nat).
  { destruct fuel; [|lia]. cbn [while] in Hw. rewrite Hgo in Hw. discriminate. }
  assert (Hss : s' = s).
  { apply while_done in Hw. destruct Hw as (k2 & _ & Hr2 & Hs2).
    exact (reach_exit_unique _ _ _ Hr2 _ _ Hreach Hs2 Hstop). }
  subst s'.
  split; [exact Hfuel|]. split.
  - rewrite Hrows.
    destruct Hinv as (_ & Hlen & _).
    set (kept := Z.to_nat ((time (sampler s) + a - 1) / a)).
    rewrite (length_concat_const kept).
    + rewrite length_map, length_seq, Nat2Z.inj_mul.
      assert (1 <= (time (sampler s) + a - 1) / a).
      { apply Z.div_le_lower_bound; lia. }
      unfold kept. nia.
    + apply Forall_forall. intros l Hl. apply in_map_iff in Hl.
      destruct Hl as (w & <- & _).
      destruct (strided_positive a
        (map (fun e : ensemble => nth w (hd [] e) []) (chain (sampler s))) Hpos)
        as (_ & _ & _ & P).
      rewrite length_map, Hlen in P. unfold kept. lia.
  - exists s0, s. split; [exact Hstart|]. split; [exact Hw | lia].
Qed.

End Run.

End Controller.

Arguments mk_run {rng} random sampler pos bar acl nsteps.
Arguments random {rng} r.
Arguments sampler {rng} r.
Arguments pos {rng} r.
Arguments bar {rng} r.
Arguments acl {rng} r.
Arguments nsteps {rng} r.
Arguments with_bar {rng} s b.
Arguments iteration {rng} kernel storechain s.
Arguments sample {rng} kernel n storechain s.
Arguments drift {rng} kernel n ge.
Arguments orbit {rng} kernel n ge.
Arguments start {rng} uniform lo hi nindep ntemps nwalkers nburnin g.
Arguments burn_in {rng} kernel nburnin s.
Arguments after_burn_in {rng} s.
Arguments continue {rng} nindep s.
Arguments round {rng} kernel autocorr acceptance nindep nburnin s.
Arguments while {rng} kernel autocorr acceptance nindep nburnin fuel s.
Arguments coldest_chain {rng} lo ntemps nwalkers s.
Arguments thin_flatten {rng} lo ntemps nwalkers s.
Arguments ez_emcee {rng} uniform kernel autocorr acceptance lo hi nindep ntemps
  nwalkers nburnin fuel g.
Arguments reach {rng} kernel autocorr acceptance nindep nburnin _ _ _.
Arguments loop_invariant {rng} s.

(** ** The prior *)

Lemma stretch_same {A : Type} (n : nat) (r : list A) :
  length r = n -> Np.stretch n r = r.
Proof.
  destruct r as [|a [|b r]]; simpl; intros H; subst; reflexivity.
Qed.

Lemma broadcast_len_same (n : nat) : Np.broadcast_len n n = Ok n.
Proof. unfold Np.broadcast_len. now rewrite Nat.eqb_refl. Qed.

Lemma zip_with_length {A B C : Type} (f : A -> B -> C) xs ys :
  length xs = length ys -> length (Np.zip_with f xs ys) = length xs.
Proof.
  intros H. unfold Np.zip_with.
  rewrite length_map, length_combine, <- H. apply Nat.min_id.
Qed.

Lemma zip_with_maps {A B C D : Type} (f : B -> C -> D) (g : A -> B) (h : A -> C)
    (l : list A) :
  Np.zip_with f (map g l) (map h l) = map (fun a => f (g a) (h a)) l.
Proof.
  unfold Np.zip_with. induction l as [|a l IH]; simpl; [reflexivity|].
  now rewrite IH.
Qed.

Lemma row_inside_in_box : forall r lo hi,
  length lo = length r -> length hi = length r ->
  row_inside lo hi r = true <-> in_box lo hi r.
Proof.
  unfold row_inside, in_box, Np.zip_with.
  induction r as [|a r IH]; intros lo hi Hlo Hhi.
  - simpl. split; [intros _ i Hi; inversion Hi | reflexivity].
  - destruct lo as [|l lo]; [discriminate|].
    destruct hi as [|h hi]; [discriminate|].
    simpl in Hlo, Hhi. injection Hlo as Hlo. injection Hhi as Hhi.
    simpl. rewrite !andb_true_iff, (IH lo hi Hlo Hhi).
    unfold F64.geb. split.
    + intros [[H1 H2] H] [|i] Hi; simpl; [tauto|].
      apply H. simpl in Hi. lia.
    + intros H. split.
      * apply (H 0%nat). simpl. lia.
      * intros i Hi. apply (H (S i)). simpl. lia.
Qed.

Lemma logp_rows (x : Np.ndarray float) (lo hi : list float) :
  Forall (fun r => length r = Np.ncol x) (Np.rows x) ->
  length lo = Np.ncol x -> length hi = Np.ncol x ->
  logp x lo hi =
    Ok (Np.mk_values (Np.lead x)
          (map (fun r => if row_inside lo hi r then F64.zero else F64.neg_inf)
               (Np.rows x))).
Proof.
  intros Hrows Hlo Hhi.
  unfold logp, Np.ge, Np.le, Np.broadcast_rows.
  rewrite Hlo, Hhi, broadcast_len_same. cbn [bind].
  unfold Np.and. cbn [Np.ncol Np.lead Np.rows].
  rewrite broadcast_len_same. cbn [bind].
  unfold Np.where_, Np.all_last. cbn [Np.vshape Np.vals Np.lead Np.rows].
  f_equal. f_equal.
  rewrite zip_with_maps, !map_map.
  apply map_ext_in. intros r Hr.
  rewrite Forall_forall in Hrows. specialize (Hrows r Hr).
  rewrite (stretch_same (Np.ncol x) r Hrows).
  rewrite (stretch_same (Np.ncol x) lo Hlo), (stretch_same (Np.ncol x) hi Hhi).
  rewrite !stretch_same; [reflexivity | |].
  - rewrite zip_with_length; congruence.
  - rewrite zip_with_length; congruence.
Qed.

(** C3: on a batch [x] of points (parameter dimension last) and bounds of
    that dimension, [logp] raises nothing and returns one value per row, in
    the shape of the leading axes: 0.0 on a row whose every coordinate lies
    between its bounds (ends included), minus infinity on any other row. *)
Theorem logp_box : forall (x : Np.ndarray float) (lo hi : list float),
  Np.wf x -> length lo = Np.ncol x -> length hi = Np.ncol x ->
  exists out,
    logp x lo hi = Ok out /\
    Np.vshape out = Np.lead x /\
    length (Np.vals out) = length (Np.rows x) /\
    forall (k : nat) (r : list float),
      nth_error (Np.rows x) k = Some r ->
      (in_box lo hi r -> nth_error (Np.vals out) k = Some F64.zero) /\
      (~ in_box lo hi r -> nth_error (Np.vals out) k = Some F64.neg_inf).
Proof.
  intros x lo hi [_ Hrows] Hlo Hhi.
  eexists. split; [apply logp_rows; assumption|].
  cbn [Np.vshape Np.vals]. split; [reflexivity|].
  split; [apply length_map|].
  intros k r Hk.
  assert (Hr : length r = Np.ncol x).
  { rewrite Forall_forall in Hrows. apply Hrows. eapply nth_error_In; eauto. }
  rewrite nth_error_map, Hk. cbn [option_map].
  pose proof (row_inside_in_box r lo hi) as Hin.
  destruct (row_inside lo hi r).
  - split; [reflexivity|]. intros Hn. exfalso. apply Hn, Hin; congruence.
  - split; [|reflexivity]. intros Hb. apply Hin in Hb; congruence.
Qed.

Lemma logp_box_witness :
  exists out,
    logp Example.points [F64.zero; F64.zero] [Example.one; Example.one] = Ok out /\
    Np.vshape out = [3%nat] /\
    length (Np.vals out) = 3%nat /\
    forall (k : nat) (r : list float),
      nth_error (Np.rows Example.points) k = Some r ->
      (in_box [F64.zero; F64.zero] [Example.one; Example.one] r ->
       nth_error (Np.vals out) k = Some F64.zero) /\
      (~ in_box [F64.zero; F64.zero] [Example.one; Example.one] r ->
       nth_error (Np.vals out) k = Some F64.neg_inf).
Proof.
  apply (logp_box Example.points [F64.zero; F64.zero] [Example.one; Example.one]).
  - split; [reflexivity | repeat constructor].
  - reflexivity.
  - reflexivity.
Defined.

Example logp_points :
  logp Example.points [F64.zero; F64.zero] [Example.one; Example.one] =
  Ok (Np.mk_values [3%nat] [F64.zero; F64.zero; F64.neg_inf]).
Proof. reflexivity. Qed.

(** Bounds of another length than the rows are a broadcasting error. *)
Example logp_mismatch :
  logp Example.points [F64.zero; F64.zero; F64.zero] [Example.one; Example.one] =
  Raise ValueError.
Proof. reflexivity. Qed.

(** C10: on an input whose last axis is empty, with empty bounds, [logp]
    returns 0.0 for every row. *)
Theorem logp_no_columns : forall x : Np.ndarray float,
  Np.wf x -> Np.ncol x = 0%nat ->
  logp x [] [] =
    Ok (Np.mk_values (Np.lead x) (repeat F64.zero (length (Np.rows x)))).
Proof.
  intros x [_ Hrows] Hn.
  rewrite logp_rows; [ | assumption | now rewrite Hn | now rewrite Hn ].
  f_equal. f_equal.
  rewrite Hn in Hrows. clear Hn.
  induction (Np.rows x) as [|r l IH]; [reflexivity|].
  inversion Hrows as [|? ? Hr Hl]; subst.
  destruct r; [|discriminate]. simpl. f_equal. apply IH, Hl.
Qed.

Lemma logp_no_columns_witness :
  logp Example.no_columns [] [] =
  Ok (Np.mk_values [2%nat] [F64.zero; F64.zero]).
Proof.
  apply (logp_no_columns Example.no_columns).
  - split; [reflexivity | repeat constructor].
  - reflexivity.
Defined.

(** ** Further properties of the prior *)

(** X6: whenever it returns, [logp] gives one value for each row, in the
    shape of the leading axes, and each value is 0.0 or minus infinity:
    never a NaN. *)
Theorem logp_values : forall (x : Np.ndarray float) (lo hi : list float)
    (out : Np.values float),
  logp x lo hi = Ok out ->
  Np.vshape out = Np.lead x /\
  length (Np.vals out) = length (Np.rows x) /\
  Forall (fun v => v = F64.zero \/ v = F64.neg_inf) (Np.vals out).
Proof.
  intros x lo hi out. unfold logp, Np.ge, Np.le, Np.broadcast_rows, bind.
  destruct (Np.broadcast_len (Np.ncol x) (length lo)) as [n1|]; [|discriminate].
  destruct (Np.broadcast_len (Np.ncol x) (length hi)) as [n2|]; [|discriminate].
  unfold Np.and, bind. cbn [Np.ncol Np.lead Np.rows].
  destruct (Np.broadcast_len n1 n2) as [n|]; [|discriminate].
  intros H. injection H as <-.
  unfold Np.where_, Np.all_last. cbn [Np.vshape Np.vals Np.lead Np.rows].
  rewrite zip_with_maps, !length_map.
  split; [reflexivity|]. split; [reflexivity|].
  apply Forall_forall. intros v Hv. apply in_map_iff in Hv.
  destruct Hv as ([|] & <- & _); [now left | now right].
Qed.

Lemma logp_values_witness :
  Np.vshape (Np.mk_values [3%nat] [F64.zero; F64.zero; F64.neg_inf]) =
    Np.lead Example.points /\
  length (Np.vals (Np.mk_values [3%nat] [F64.zero; F64.zero; F64.neg_inf])) =
    length (Np.rows Example.points) /\
  Forall (fun v => v = F64.zero \/ v = F64.neg_inf)
         (Np.vals (Np.mk_values [3%nat] [F64.zero; F64.zero; F64.neg_inf])).
Proof.
  apply (logp_values Example.points [F64.zero; F64.zero]
           [Example.one; Example.one]).
  reflexivity.
Defined.

Lemma leb_nan_r (a : float) : F64.leb a F64.nan = false.
Proof. now destruct a. Qed.

Lemma leb_nan_l (a : float) : F64.leb F64.nan a = false.
Proof. now destruct a. Qed.

Lemma nan_not_in_box (lo hi r : list float) : In F64.nan r -> ~ in_box lo hi r.
Proof.
  intros Hin Hbox. apply (In_nth _ _ F64.nan) in Hin.
  destruct Hin as (i & Hi & Hnth). destruct (Hbox i Hi) as [H _].
  rewrite Hnth, leb_nan_r in H. discriminate.
Qed.

Lemma logp_row (x : Np.ndarray float) (lo hi r : list float) (k : nat) :
  Np.wf x -> length lo = Np.ncol x -> length hi = Np.ncol x ->
  nth_error (Np.rows x) k = Some r ->
  exists out,
    logp x lo hi = Ok out /\
    length r = Np.ncol x /\
    nth_error (Np.vals out) k =
      Some (if row_inside lo hi r then F64.zero else F64.neg_inf).
Proof.
  intros [_ Hrows] Hlo Hhi Hk. eexists.
  split; [apply logp_rows; assumption|]. split.
  - rewrite Forall_forall in Hrows. apply Hrows. eapply nth_error_In; eauto.
  - cbn [Np.vals]. now rewrite nth_error_map, Hk.
Qed.

(** X7: a row with a NaN coordinate gets minus infinity, whatever the
    bounds. *)
Theorem logp_nan_outside :
  forall (x : Np.ndarray float) (lo hi r : list float) (k : nat),
    Np.wf x -> length lo = Np.ncol x -> length hi = Np.ncol x ->
    nth_error (Np.rows x) k = Some r ->
    In F64.nan r ->
    exists out,
      logp x lo hi = Ok out /\ nth_error (Np.vals out) k = Some F64.neg_inf.
Proof.
  intros x lo hi r k Hwf Hlo Hhi Hk Hnan.
  destruct (logp_row x lo hi r k Hwf Hlo Hhi Hk) as (out & Hout & Hr & Hv).
  exists out. split; [exact Hout|]. rewrite Hv.
  destruct (row_inside lo hi r) eqn:E; [|reflexivity].
  apply row_inside_in_box in E; [|congruence..].
  now apply nan_not_in_box in E.
Qed.

Lemma logp_nan_outside_witness :
  exists out,
    logp (Np.mk_nd [2%nat] 2 [[Example.half; F64.nan]; [Example.half; Example.half]])
         [F64.zero; F64.zero] [Example.one; Example.one] = Ok out /\
    nth_error (Np.vals out) 0 = Some F64.neg_inf.
Proof.
  apply (logp_nan_outside _ _ _ [Example.half; F64.nan]).
  - split; [reflexivity | repeat constructor].
  - reflexivity.
  - reflexivity.
  - reflexivity.
  - right. left. reflexivity.
Defined.

Lemma nth_repeat_lt {A : Type} (a d : A) (n i : nat) :
  (i < n)%nat -> nth i (repeat a n) d = a.
Proof.
  intros H. apply (repeat_spec n a). apply nth_In. now rewrite repeat_length.
Qed.

(** X8: with every lower bound at minus infinity and every upper bound at
    plus infinity, a row gets 0.0 when none of its coordinates is a NaN. *)
Theorem logp_unbounded :
  forall (x : Np.ndarray float) (r : list float) (k : nat),
    Np.wf x ->
    nth_error (Np.rows x) k = Some r ->
    ~ In F64.nan r ->
    exists out,
      logp x (repeat F64.neg_inf (Np.ncol x)) (repeat F64.inf (Np.ncol x)) =
        Ok out /\
      nth_error (Np.vals out) k = Some F64.zero.
Proof.
  intros x r k Hwf Hk Hnan.
  destruct (logp_row x (repeat F64.neg_inf (Np.ncol x))
              (repeat F64.inf (Np.ncol x)) r k Hwf
              (repeat_length _ _) (repeat_length _ _) Hk)
    as (out & Hout & Hr & Hv).
  exists out. split; [exact Hout|]. rewrite Hv.
  replace (row_inside _ _ r) with true; [reflexivity|].
  symmetry. apply row_inside_in_box; [now rewrite repeat_length..|].
  intros i Hi. rewrite !nth_repeat_lt by lia.
  assert (Hc : nth i r F64.nan <> F64.nan).
  { intros E. apply Hnan. rewrite <- E. now apply nth_In. }
  destruct (nth i r F64.nan) as [s|s| |s m e];
    [now split | now destruct s | now contradiction Hc | now split].
Qed.

Lemma logp_unbounded_witness :
  exists out,
    logp Example.points (repeat F64.neg_inf 2) (repeat F64.inf 2) = Ok out /\
    nth_error (Np.vals out) 2 = Some F64.zero.
Proof.
  apply (logp_unbounded Example.points [Example.half; Example.two] 2).
  - split; [reflexivity | repeat constructor].
  - reflexivity.
  - simpl. intros [H | [H | []]]; discriminate.
Defined.

Lemma broadcast_len_one (n : nat) : Np.broadcast_len n 1 = Ok n.
Proof.
  unfold Np.broadcast_len. destruct (n =? 1)%nat; reflexivity.
Qed.

Lemma broadcast_rows_scalar {A B C : Type} (f : A -> B -> C)
    (x : Np.ndarray A) (b : B) :
  Np.broadcast_rows f x [b] = Np.broadcast_rows f x (repeat b (Np.ncol x)).
Proof.
  unfold Np.broadcast_rows. cbn [length].
  rewrite repeat_length, broadcast_len_one, broadcast_len_same. cbn [bind].
  do 2 f_equal. apply map_ext. intros r. f_equal.
  rewrite (stretch_same (Np.ncol x) (repeat b (Np.ncol x)))
    by apply repeat_length.
  reflexivity.
Qed.

(** X9: bounds of length one are broadcast: they bound every coordinate, as
    the bounds that repeat them on every column do. *)
Theorem logp_scalar_bounds :
  forall (x : Np.ndarray float) (l h : float),
    logp x [l] [h] = logp x (repeat l (Np.ncol x)) (repeat h (Np.ncol x)).
Proof.
  intros x l h. unfold logp, Np.ge, Np.le.
  now rewrite !broadcast_rows_scalar.
Qed.

(** X10: [logp] raises, a ValueError, exactly when the shapes cannot be
    broadcast: for points of more than one or of no coordinate, when a bound
    has neither the length of a point nor length one; for points of one
    coordinate, when the two bounds have different lengths, neither of them
    one. *)
Theorem logp_shape_error :
  forall (x : Np.ndarray float) (lo hi : list float),
    let fits :=
      if (Np.ncol x =? 1)%nat
      then length lo = length hi \/ length lo = 1%nat \/ length hi = 1%nat
      else (length lo = Np.ncol x \/ length lo = 1%nat) /\
           (length hi = Np.ncol x \/ length hi = 1%nat) in
    match logp x lo hi with
    | Ok _ => fits
    | Raise e => e = ValueError /\ ~ fits
    end.
Proof.
  intros x lo hi. cbn zeta.
  unfold logp, Np.ge, Np.le, Np.broadcast_rows, Np.and, Np.broadcast_len, bind.
  cbn [Np.ncol].
  destruct (Nat.eqb_spec (Np.ncol x) 1) as [E1|E1];
    destruct (Nat.eqb_spec (Np.ncol x) (length lo)) as [E2|E2];
    destruct (Nat.eqb_spec (length lo) 1) as [E3|E3];
    destruct (Nat.eqb_spec (Np.ncol x) (length hi)) as [E4|E4];
    destruct (Nat.eqb_spec (length hi) 1) as [E5|E5];
    cbn [Np.ncol];
    repeat match goal with
           | |- context [(?a =? ?b)%nat] => destruct (Nat.eqb_spec a b)
           end;
    try (split; [reflexivity|]); lia.
Qed.

(** X25: the evaluation on a batch agrees with the evaluation on each of its
    points taken alone. *)
Theorem logp_vectorized :
  forall (x : Np.ndarray float) (lo hi r : list float) (k : nat),
    Np.wf x -> length lo = Np.ncol x -> length hi = Np.ncol x ->
    nth_error (Np.rows x) k = Some r ->
    exists (out : Np.values float) (v : float),
      logp x lo hi = Ok out /\
      nth_error (Np.vals out) k = Some v /\
      logp (Np.mk_nd [] (Np.ncol x) [r]) lo hi = Ok (Np.mk_values [] [v]).
Proof.
  intros x lo hi r k Hwf Hlo Hhi Hk.
  destruct (logp_row x lo hi r k Hwf Hlo Hhi Hk) as (out & Hout & Hr & Hv).
  exists out, (if row_inside lo hi r then F64.zero else F64.neg_inf).
  split; [exact Hout|]. split; [exact Hv|].
  rewrite logp_rows; [reflexivity | | assumption..].
  cbn [Np.rows Np.ncol]. now constructor.
Qed.

Lemma logp_vectorized_witness :
  exists (out : Np.values float) (v : float),
    logp Example.points [F64.zero; F64.zero] [Example.one; Example.one] = Ok out /\
    nth_error (Np.vals out) 2 = Some v /\
    logp (Np.mk_nd [] 2 [[Example.half; Example.two]])
         [F64.zero; F64.zero] [Example.one; Example.one] =
      Ok (Np.mk_values [] [v]).
Proof.
  apply (logp_vectorized Example.points [F64.zero; F64.zero]
           [Example.one; Example.one] [Example.half; Example.two] 2).
  - split; [reflexivity | repeat constructor].
  - reflexivity.
  - reflexivity.
  - reflexivity.
Defined.

(** ** The controller on the concrete sampler

    One temperature, four walkers on the unit interval, an estimate of 2.5
    for the autocorrelation length. *)

Local Abbreviation demo_autocorr := (Example.autocorr Example.two_and_half).

(** The state built by lines 97-104, for given [nindep] and [nburnin]. *)
Local Abbreviation demo_start nindep nburnin :=
  (mk_run (fst (Example.uniform tt Example.lo Example.hi 1 4 1)) new_sampler
          (snd (Example.uniform tt Example.lo Example.hi 1 4 1))
          (mk_progress (Py.Int (nburnin + nindep * 64)) 0 NoLabel None)
          (Py.Float F64.nan) 64).

(** The state in which the loop is entered. *)
Local Abbreviation demo_entry nindep nburnin :=
  (after_burn_in (burn_in Example.kernel nburnin (demo_start nindep nburnin))).

Local Abbreviation demo_round nindep nburnin :=
  (round Example.kernel demo_autocorr Example.acceptance nindep nburnin).

(** The state after the first round. *)
Local Abbreviation demo_first nindep nburnin :=
  (value_or (demo_entry nindep nburnin)
            (demo_round nindep nburnin (demo_entry nindep nburnin))).

Local Abbreviation demo_while nindep nburnin :=
  (while Example.kernel demo_autocorr Example.acceptance nindep nburnin).

Local Abbreviation demo_ez_emcee lo hi nindep nburnin :=
  (ez_emcee Example.uniform Example.kernel demo_autocorr Example.acceptance
            lo hi nindep 1 None nburnin).

Lemma demo_uniform_shaped : forall g l h t w d,
  shaped t w d (snd (Example.uniform g l h t w d)).
Proof.
  intros g l h t w d. unfold Example.uniform, shaped. cbn [snd].
  split; [apply repeat_length|].
  apply Forall_forall. intros x Hx. apply repeat_spec in Hx. subst x.
  split; [apply repeat_length|].
  apply Forall_forall. intros y Hy. apply repeat_spec in Hy. subst y.
  rewrite length_firstn, length_app, repeat_length. lia.
Qed.

Lemma demo_kernel_shaped : forall g e t w d,
  shaped t w d e -> shaped t w d (snd (fst (Example.kernel g e))).
Proof. intros g e t w d H. exact H. Qed.

Lemma loop_condition_witness :
  continue 2 (demo_entry 2 3) = Ok true /\
  demo_while 2 3 0 (demo_entry 2 3) = Running /\
  demo_while 2 3 5 (demo_first 2 3) = Done (demo_first 2 3) /\
  demo_while 200 3 1 (demo_first 200 3) =
  match demo_round 200 3 (demo_first 200 3) with
  | Raise e => Failed e
  | Ok s' => demo_while 200 3 0 s'
  end.
Proof.
  destruct (loop_condition unit Example.kernel demo_autocorr Example.acceptance 2 3)
    as (_ & _ & H & _ & _ & _ & _ & _ & _ & Hint & _).
  destruct (loop_condition unit Example.kernel demo_autocorr Example.acceptance 200 3)
    as (_ & _ & _ & _ & _ & _ & _ & _ & _ & Hint' & _).
  destruct (H (demo_entry 2 3) F64.nan eq_refl eq_refl) as (H1 & H2 & _).
  assert (Hacl : acl (demo_first 2 3) = Py.Int 3) by (vm_compute; reflexivity).
  assert (Hacl' : acl (demo_first 200 3) = Py.Int 3) by (vm_compute; reflexivity).
  assert (Hfin : Py.isfinite (acl (demo_first 2 3)) = Ok true)
    by (vm_compute; reflexivity).
  assert (Hfin' : Py.isfinite (acl (demo_first 200 3)) = Ok true)
    by (vm_compute; reflexivity).
  assert (Hmet : 2 * 3 <= time (sampler (demo_first 2 3)))
    by (vm_compute; discriminate).
  assert (Hshort : time (sampler (demo_first 200 3)) < 200 * 3)
    by (vm_compute; reflexivity).
  split; [exact H1|]. split; [exact H2|]. split.
  - exact (proj2 (Hint 5%nat (demo_first 2 3) 3 Hacl Hfin) Hmet).
  - exact (proj1 (Hint' 0%nat (demo_first 200 3) 3 Hacl' Hfin') Hshort).
Defined.

Lemma acl_refresh_witness : acl (demo_first 2 3) = Py.Int 3.
Proof.
  assert (Hround : demo_round 2 3 (demo_entry 2 3) = Ok (demo_first 2 3))
    by (vm_compute; reflexivity).
  destruct (acl_refresh unit Example.kernel demo_autocorr Example.acceptance 2 3
              _ _ Hround) as [H _].
  destruct (H eq_refl) as [H1 _]. exact H1.
Defined.

Lemma nsteps_doubles_witness :
  nsteps (demo_first 2 3) = 128 /\ time (sampler (demo_first 2 3)) = 64.
Proof.
  assert (Hreach : reach Example.kernel demo_autocorr Example.acceptance 2 3
                     1 (demo_entry 2 3) (demo_first 2 3)).
  { eapply reach_round;
      [reflexivity | vm_compute; reflexivity | apply reach_here]. }
  destruct (nsteps_doubles unit Example.uniform Example.kernel demo_autocorr
              Example.acceptance Example.lo Example.hi 2 1 None 3 tt
              (demo_start 2 3) 1 (demo_first 2 3) eq_refl Hreach)
    as (_ & H1 & H2 & _).
  split; [exact H1 | exact H2].
Defined.

Lemma progress_total_witness :
  total (bar (demo_first 2 3)) = Py.Int (3 + (0 + 64)).
Proof.
  assert (Hround : demo_round 2 3 (demo_entry 2 3) = Ok (demo_first 2 3))
    by (vm_compute; reflexivity).
  destruct (progress_total unit Example.kernel demo_autocorr Example.acceptance
              2 3 _ _ Hround) as (_ & _ & H).
  exact (H eq_refl).
Defined.

(** With the default [nindep = 200] and [nburnin = 500], the first round is
    entered with a NaN length: the total becomes 564, not
    [500 + max(0 + 64, 200 * 1) = 700]. *)
Lemma progress_total_counterexample :
  acl (demo_entry 200 500) = Py.Float F64.nan /\
  time (sampler (demo_entry 200 500)) = 0 /\
  nsteps (demo_entry 200 500) = 64 /\
  demo_round 200 500 (demo_entry 200 500) = Ok (demo_first 200 500) /\
  total (bar (demo_first 200 500)) = Py.Int 564 /\
  total (bar (demo_first 200 500)) <>
    Py.Int (500 + Z.max (time (sampler (demo_entry 200 500))
                         + nsteps (demo_entry 200 500)) (200 * 1)).
Proof.
  split; [reflexivity|]. split; [reflexivity|]. split; [reflexivity|].
  split; [vm_compute; reflexivity|].
  split; [vm_compute; reflexivity|].
  vm_compute. discriminate.
Qed.

Lemma burn_in_discarded_witness :
  time (sampler (burn_in Example.kernel 3 (demo_start 2 3))) = 3 /\
  chain (sampler (burn_in Example.kernel 3 (demo_start 2 3))) = [] /\
  sampler (demo_entry 2 3) = mk_sampler 0 [] 0 0 /\
  chain (sampler (demo_first 2 3)) =
    orbit Example.kernel 64 (random (demo_entry 2 3), pos (demo_entry 2 3)).
Proof.
  assert (Hreach : reach Example.kernel demo_autocorr Example.acceptance 2 3
                     1 (demo_entry 2 3) (demo_first 2 3)).
  { eapply reach_round;
      [reflexivity | vm_compute; reflexivity | apply reach_here]. }
  destruct (burn_in_discarded unit Example.uniform Example.kernel demo_autocorr
              Example.acceptance Example.lo Example.hi 2 1 None 3 tt
              (demo_start 2 3) eq_refl)
    as (H1 & _ & H3 & H4 & _ & H6 & _).
  split; [exact H1|]. split; [exact H3|]. split; [exact H4|].
  exact (H6 1%nat _ Hreach).
Defined.

Lemma thinning_stride_witness :
  acl (demo_first 2 3) = Py.Int 3 /\
  slice_step (acl (demo_first 2 3)) = Ok 3 /\
  exists out : Np.ndarray float,
    thin_flatten Example.lo 1 None (demo_first 2 3) = Ok out /\
    demo_ez_emcee Example.lo Example.hi 2 3 1 tt = Done out /\
    Np.lead out = [88%nat] /\
    length (Np.rows out) = 88%nat.
Proof.
  assert (Hwhile : demo_while 2 3 1 (demo_entry 2 3) = Done (demo_first 2 3))
    by (vm_compute; reflexivity).
  assert (Hacl : acl (demo_first 2 3) = Py.Int 3) by (vm_compute; reflexivity).
  assert (Htime : time (sampler (demo_first 2 3)) = 64)
    by (vm_compute; reflexivity).
  assert (Hwalkers : walkers Example.lo None = 4%nat) by reflexivity.
  destruct (thinning_stride unit Example.uniform Example.kernel demo_autocorr
              Example.acceptance Example.lo Example.hi 2 1 None 3 tt
              (demo_start 2 3) 1 (demo_first 2 3) eq_refl Hwhile)
    as (a & kept & Ha & _ & Hstep & Hkept & _ & _ & _ & _ & Hout).
  rewrite Hacl in Ha. injection Ha as <-.
  rewrite Htime in Hkept. change ((64 + 3 - 1) / 3) with 22 in Hkept.
  assert (kept = 22%nat) as -> by lia.
  destruct (Hout ltac:(discriminate) ltac:(discriminate))
    as (cold & out & _ & Hthin & Hez & _ & Hlead & _ & Hlen & _).
  rewrite Hwalkers in Hlead, Hlen.
  split; [reflexivity|]. split; [exact Hstep|].
  exists out. split; [exact Hthin|]. split; [exact Hez|].
  split; [exact Hlead | exact Hlen].
Defined.

Lemma returned_chain_witness :
  let out := Np.mk_nd [88%nat] 1 (repeat [F64.zero] 88) in
  demo_ez_emcee Example.lo Example.hi 2 3 1 tt = Done out /\
  Np.wf out /\
  Np.ncol out = 1%nat /\
  2 * 4 <= Z.of_nat (length (Np.rows out)).
Proof.
  intros out.
  assert (Hrun : demo_ez_emcee Example.lo Example.hi 2 3 1 tt = Done out)
    by (vm_compute; reflexivity).
  destruct (returned_chain unit Example.uniform Example.kernel demo_autocorr
              Example.acceptance Example.lo Example.hi 2 1 None 3
              demo_uniform_shaped demo_kernel_shaped 1 tt out Hrun)
    as (s0 & s & a & _ & _ & _ & _ & _ & _ & Hwf & _ & Hcol & _ & Hrows).
  split; [exact Hrun|]. split; [exact Hwf|]. split; [exact Hcol | exact Hrows].
Defined.



Lemma demo_reach_first :
  reach Example.kernel demo_autocorr Example.acceptance 2 3
        1 (demo_entry 2 3) (demo_first 2 3).
Proof.
  eapply reach_round;
    [reflexivity | vm_compute; reflexivity | apply reach_here].
Qed.

Lemma demo_run :
  demo_ez_emcee Example.lo Example.hi 2 3 1 tt =
  Done (Np.mk_nd [88%nat] 1 (repeat [F64.zero] 88)).
Proof. vm_compute. reflexivity. Qed.

Lemma one_tick_per_iteration_witness :
  count (bar (demo_first 2 3)) = 3 + 64.
Proof.
  exact (one_tick_per_iteration unit Example.uniform Example.kernel
           demo_autocorr Example.acceptance Example.lo Example.hi 2 1 None 3
           tt (demo_start 2 3) 1 (demo_first 2 3) eq_refl demo_reach_first).
Defined.

Lemma ez_emcee_terminates_witness :
  (exists out : Np.ndarray float,
     demo_ez_emcee Example.lo Example.hi 2 3 1 tt = Done out) /\
  exists t : Z, total (bar (demo_first 2 3)) = Py.Int t /\ 0 <= t < 2 ^ 63.
Proof.
  assert (Hsmall : 3 < 2 ^ 64) by reflexivity.
  assert (Hest : forall h : list ensemble,
            F64.isfinite (demo_autocorr h) = true /\
            F64.ceil (demo_autocorr h) <= 3)
    by (intros h; split; [reflexivity | vm_compute; discriminate]).
  assert (Hnb : 0 <= 3) by discriminate.
  assert (Hni : 0 < 2) by reflexivity.
  assert (Hrange : 3 + 64 * 2 * Z.max 1 3 + 64 < 2 ^ 63) by reflexivity.
  assert (Hrounds : 2 * Z.max 1 3 <= 64 * (2 ^ Z.of_nat 1 - 1))
    by (vm_compute; discriminate).
  pose proof (ez_emcee_terminates unit Example.uniform Example.kernel
                demo_autocorr Example.acceptance Example.lo Example.hi
                2 1 None 3 3 Hsmall Hest tt (demo_start 2 3) Example.two 0)
    as H.
  specialize (H eq_refl).
  specialize (H ltac:(discriminate)).
  specialize (H ltac:(discriminate)).
  specialize (H eq_refl).
  destruct (H Hnb Hni Hrange Hrounds) as (Hout & _ & _ & Hall).
  split; [exact Hout|].
  exact (proj1 (Hall 1%nat (demo_first 2 3) demo_reach_first)).
Defined.

Lemma returned_rows_order_witness :
  exists (s0 s : run unit) (a : Z) (kept : nat),
    start Example.uniform Example.lo Example.hi 2 1 None 3 tt = Ok s0 /\
    demo_while 2 3 1 (after_burn_in (burn_in Example.kernel 3 s0)) = Done s /\
    acl s = Py.Int a /\
    Z.of_nat kept = (time (sampler s) + a - 1) / a /\
    forall w j : nat,
      (w < walkers Example.lo None)%nat -> (j < kept)%nat ->
      nth_error (repeat [F64.zero] 88) (w * kept + j) =
      option_map (fun e : ensemble => nth w (hd [] e) [])
                 (nth_error (chain (sampler s)) (j * Z.to_nat a)).
Proof.
  exact (returned_rows_order unit Example.uniform Example.kernel demo_autocorr
           Example.acceptance Example.lo Example.hi 2 1 None 3 1 tt
           (Np.mk_nd [88%nat] 1 (repeat [F64.zero] 88)) demo_run).
Defined.

Lemma at_least_one_round_witness :
  (1 <= 1)%nat /\
  Z.of_nat (walkers Example.lo None) <= Z.of_nat (length (repeat [F64.zero] 88)) /\
  exists (s0 s : run unit),
    start Example.uniform Example.lo Example.hi 2 1 None 3 tt = Ok s0 /\
    demo_while 2 3 1 (after_burn_in (burn_in Example.kernel 3 s0)) = Done s /\
    64 <= time (sampler s).
Proof.
  exact (at_least_one_round unit Example.uniform Example.kernel demo_autocorr
           Example.acceptance Example.lo Example.hi 2 1 None 3 1 tt
           (Np.mk_nd [88%nat] 1 (repeat [F64.zero] 88)) demo_run).
Defined.

(** * Properties of the command line support *)

Module ToolFacts.

Import Tool.

Local Open Scope string_scope.

(** ** Strings *)

Lemma prefix_iff (p s : string) :
  String.prefix p s = true <-> exists r, s = p ++ r.
Proof.
  revert s. induction p as [|a p IH]; intros s.
  - split; [intros _; now exists s | intros _; now destruct s].
  - destruct s as [|b s]; simpl.
    + split; [discriminate | intros [r H]; discriminate].
    + destruct (ascii_dec a b) as [->|Hab].
      * rewrite IH. split; intros [r H]; exists r; simpl in *; congruence.
      * split; [discriminate | intros [r H]; simpl in H; congruence].
Qed.

Lemma prefix_append (p s : string) : String.prefix p (p ++ s) = true.
Proof. apply prefix_iff. now exists s. Qed.

Lemma append_nil_r (s : string) : s ++ "" = s.
Proof. induction s as [|c s IH]; simpl; [reflexivity | now rewrite IH]. Qed.

Lemma append_assoc (a b c : string) : (a ++ b) ++ c = a ++ (b ++ c).
Proof. induction a as [|x a IH]; simpl; [reflexivity | now rewrite IH]. Qed.

Lemma replace_from_skip (old new p s : string) :
  replace_from old new (String.length p) (p ++ s) = replace_from old new 0 s.
Proof. induction p as [|c p IH]; simpl; [reflexivity | exact IH]. Qed.

(** An occurrence at the head is replaced, and the scan goes on after it. *)
Lemma replace_head (old new s : string) :
  old <> "" -> replace (old ++ s) old new = new ++ replace s old new.
Proof.
  intros Hold. unfold replace. destruct old as [|c old]; [contradiction|].
  change (String c old ++ s) with (String c (old ++ s)).
  cbn [replace_from].
  change (String c (old ++ s)) with (String c old ++ s).
  rewrite prefix_append. cbn [String.length Nat.pred].
  now rewrite replace_from_skip.
Qed.

(** Without an occurrence, nothing changes. *)
Lemma replace_absent (old new s : string) :
  old <> "" -> contains old s = false -> replace s old new = s.
Proof.
  intros Hold. unfold replace. destruct old as [|c old]; [contradiction|].
  induction s as [|x s IH]; [reflexivity|].
  cbn [contains replace_from]. intros H. apply orb_false_iff in H.
  destruct H as [-> H]. now rewrite IH.
Qed.

Lemma getattr_setattr {V : Type} (ns : namespace V) (k : string) (v : V) :
  getattr (setattr ns k v) k = Some v.
Proof.
  induction ns as [|[k' v'] ns IH]; simpl.
  - now rewrite String.eqb_refl.
  - destruct (String.eqb k' k) eqn:E; simpl.
    + now rewrite String.eqb_refl.
    + now rewrite E.
Qed.

Lemma getattr_setattr_other {V : Type} (ns : namespace V) (k k' : string) (v : V) :
  k <> k' -> getattr (setattr ns k v) k' = getattr ns k'.
Proof.
  intros Hk. induction ns as [|[k0 v0] ns IH]; simpl.
  - apply String.eqb_neq in Hk. now rewrite Hk.
  - destruct (String.eqb k0 k) eqn:E; simpl.
    + apply String.eqb_eq in E. subst k0.
      apply String.eqb_neq in Hk. now rewrite Hk.
    + destruct (String.eqb k0 k'); [reflexivity | exact IH].
Qed.

(** ** EnableAction *)

Lemma EnableAction_init_ok (opt d : string) (dflt req : bool)
    (h : option string) (a : action) :
  EnableAction_init [opt] d dflt req h = Return a ->
  exists rest,
    opt = "--enable-" ++ rest /\
    a = mk_action [opt; "--disable-" ++ replace rest "--enable-" "--disable-"]
                  d 0 dflt req h.
Proof.
  unfold EnableAction_init, startswith.
  destruct (String.prefix "--enable-" opt) eqn:Hp; [|discriminate].
  apply prefix_iff in Hp. destruct Hp as [rest Hr].
  intros H. injection H as <-. exists rest. split; [exact Hr|].
  rewrite Hr at 2.
  change (replace_from "--enable-" "--disable-" 0 ("--enable-" ++ rest))
    with (replace ("--enable-" ++ rest) "--enable-" "--disable-").
  now rewrite replace_head by discriminate.
Qed.

(** X11: the constructor accepts exactly one option string beginning with
    [--enable-] and raises ValueError on anything else; it registers this
    string and, second, the string in which every [--enable-] is turned
    into [--disable-], which begins with [--disable-]. *)
Theorem EnableAction_init_spec :
  forall (strings : list string) (d : string) (dflt req : bool)
         (h : option string),
    match EnableAction_init strings d dflt req h with
    | Throw e =>
        e = ValueError /\ forall rest, strings <> ["--enable-" ++ rest]
    | Return a =>
        exists rest,
          strings = ["--enable-" ++ rest] /\
          option_strings a =
            ["--enable-" ++ rest;
             "--disable-" ++ replace rest "--enable-" "--disable-"] /\
          dest a = d /\ nargs a = 0%Z /\ default a = dflt
    end.
Proof.
  intros strings d dflt req h.
  destruct (EnableAction_init strings d dflt req h) as [a|e] eqn:E.
  - destruct strings as [|opt [|x more]]; try discriminate.
    apply EnableAction_init_ok in E. destruct E as (rest & -> & ->).
    exists rest. repeat split.
  - unfold EnableAction_init in E.
    destruct strings as [|opt [|x more]].
    + split; [congruence | discriminate].
    + unfold startswith in E.
      destruct (String.prefix "--enable-" opt) eqn:Hp; [discriminate|].
      split; [cbn [negb] in E; congruence|]. intros rest H.
      assert (Eo : opt = "--enable-" ++ rest) by congruence.
      pose proof (prefix_append "--enable-" rest) as Hq. congruence.
    + split; [congruence | discriminate].
Qed.

(** X12: called with either of the option strings it has registered, the
    action never reaches its RuntimeError: it stores True under [dest] for
    the first string and False for the second, which differs from it. *)
Theorem EnableAction_call_registered :
  forall (opt d : string) (dflt req : bool) (h : option string) (a : action)
         (ns : namespace bool) (o : string),
    EnableAction_init [opt] d dflt req h = Return a ->
    In o (option_strings a) ->
    exists b : bool,
      EnableAction_call a ns o = Return (setattr ns d b) /\
      getattr (setattr ns d b) d = Some b /\
      (b = true <-> o = opt).
Proof.
  intros opt d dflt req h a ns o Hinit Hin.
  apply EnableAction_init_ok in Hinit. destruct Hinit as (rest & -> & ->).
  unfold EnableAction_call, startswith.
  destruct Hin as [<- | [<- | []]].
  - exists true. rewrite prefix_append.
    split; [reflexivity|]. split; [apply getattr_setattr | tauto].
  - exists false. rewrite prefix_append.
    replace (String.prefix "--enable-" ("--disable-" ++ _)) with false
      by reflexivity.
    split; [reflexivity|]. split; [apply getattr_setattr|].
    split; [discriminate | intros H; discriminate].
Qed.

Lemma EnableAction_call_registered_witness :
  exists b : bool,
    EnableAction_call
      (mk_action ["--enable-snr-series"; "--disable-snr-series"]
                 "enable_snr_series" 0 true false None)
      [("enable_snr_series", true)] "--disable-snr-series" =
    Return (setattr [("enable_snr_series", true)] "enable_snr_series" b) /\
    getattr (setattr [("enable_snr_series", true)] "enable_snr_series" b)
            "enable_snr_series" = Some b /\
    (b = true <-> "--disable-snr-series" = "--enable-snr-series").
Proof.
  apply (EnableAction_call_registered "--enable-snr-series" "enable_snr_series"
           true false None).
  - reflexivity.
  - simpl. right. left. reflexivity.
Defined.

(** ** HelpChoicesAction *)

(** X24: for an option [--help-NAME] whose NAME holds no further [--help-],
    the constructor finds NAME, and the call prints
    [Supported values for --NAME:] and then the choices, one per line, in
    their order. *)
Theorem HelpChoicesAction_name_spec :
  forall (name : string) (more choices : list string),
    contains "--help-" name = false ->
    HelpChoicesAction_name (("--help-" ++ name) :: more) = Return name /\
    HelpChoicesAction_call name choices =
      (("Supported values for --" ++ name ++ ":") :: choices).
Proof.
  intros name more choices H. unfold HelpChoicesAction_name. split.
  - rewrite replace_head by discriminate.
    rewrite replace_absent by (discriminate || assumption). reflexivity.
  - unfold HelpChoicesAction_call. now rewrite append_assoc.
Qed.

Lemma HelpChoicesAction_name_spec_witness :
  HelpChoicesAction_name ["--help-colormap"] = Return "colormap" /\
  HelpChoicesAction_call "colormap" ["cylon"; "viridis"] =
    ["Supported values for --colormap:"; "cylon"; "viridis"].
Proof.
  apply (HelpChoicesAction_name_spec "colormap" [] ["cylon"; "viridis"]).
  reflexivity.
Defined.

(** ** SQLiteType *)

(** X21: [mode not in 'arw'] being a substring test, the constructor accepts
    the seven substrings of [arw], the empty mode and the modes of two or
    three letters among them, and raises ValueError on every other mode. *)
Theorem SQLiteType_init_modes : forall mode : string,
  match SQLiteType_init mode with
  | Return m => m = mode /\ In mode [""; "a"; "r"; "w"; "ar"; "rw"; "arw"]
  | Throw e => e = ValueError /\ ~ In mode [""; "a"; "r"; "w"; "ar"; "rw"; "arw"]
  end.
Proof.
  intros mode. unfold SQLiteType_init.
  destruct (contains mode "arw") eqn:E; cbn [negb].
  - split; [reflexivity|].
    destruct mode as [|c1 [|c2 [|c3 [|c4 m]]]]; simpl in E |- *;
      repeat match type of E with
             | context [ascii_dec ?a ?b] => destruct (ascii_dec a b); subst
             end;
      simpl in E; try discriminate; tauto.
  - split; [reflexivity|].
    intros H. simpl in H.
    repeat (destruct H as [<- | H]; [discriminate E|]). exact H.
Qed.

(** ** The default program name *)

Lemma basename_from_plain (s cur : string) :
  contains "/" s = false -> basename_from cur s = cur ++ s.
Proof.
  revert cur. induction s as [|c s IH]; intros cur H.
  - simpl. now rewrite append_nil_r.
  - cbn [contains] in H. apply orb_false_iff in H. destruct H as [Hc Hs].
    cbn [basename_from].
    destruct (Ascii.eqb_spec c "/") as [->|Hne].
    + simpl in Hc. destruct s; discriminate.
    + rewrite IH by assumption. now rewrite append_assoc.
Qed.

Lemma basename_from_slash (a b cur : string) :
  basename_from cur (a ++ String "/" b) = basename_from "" b.
Proof.
  revert cur. induction a as [|c a IH]; intros cur; simpl.
  - reflexivity.
  - destruct (Ascii.eqb c "/"); apply IH.
Qed.

Lemma prefix_nil (s : string) : String.prefix "" s = true.
Proof. now destruct s. Qed.

(** Hyphens for underscores, character by character. *)
Lemma replace_underscore_cons (c : ascii) (s : string) :
  replace_from "_" "-" 0 (String c s) =
  String (if ascii_dec "_" c then "-"%char else c) (replace_from "_" "-" 0 s).
Proof.
  cbn [replace_from String.prefix].
  destruct (ascii_dec "_" c); [now rewrite prefix_nil | reflexivity].
Qed.

Lemma replace_underscore_prefix_py (s : string) :
  String.prefix ".py" (replace_from "_" "-" 0 s) = String.prefix ".py" s.
Proof.
  destruct s as [|c1 s]; [reflexivity|]. rewrite replace_underscore_cons.
  cbn [String.prefix].
  destruct (ascii_dec "_" c1) as [<-|H1]; [reflexivity|].
  destruct (ascii_dec "." c1); [|reflexivity].
  destruct s as [|c2 s]; [reflexivity|]. rewrite replace_underscore_cons.
  cbn [String.prefix].
  destruct (ascii_dec "_" c2) as [<-|H2]; [reflexivity|].
  destruct (ascii_dec "p" c2); [|reflexivity].
  destruct s as [|c3 s]; [reflexivity|]. rewrite replace_underscore_cons.
  cbn [String.prefix].
  destruct (ascii_dec "_" c3) as [<-|H3]; [reflexivity|].
  destruct (ascii_dec "y" c3); [|reflexivity].
  now rewrite !prefix_nil.
Qed.

Lemma replace_underscore_contains_py (s : string) :
  contains ".py" (replace_from "_" "-" 0 s) = contains ".py" s.
Proof.
  induction s as [|c s IH]; [reflexivity|].
  cbn [contains]. rewrite <- IH, <- replace_underscore_prefix_py.
  rewrite replace_underscore_cons. reflexivity.
Qed.

(** A final [.py] after a string that holds none is the only occurrence. *)
Lemma replace_py_suffix (s : string) :
  contains ".py" s = false -> replace_from ".py" "" 0 (s ++ ".py") = s.
Proof.
  induction s as [|c s IH]; [reflexivity|].
  cbn [contains]. intros H. apply orb_false_iff in H. destruct H as [Hp Hs].
  change (String c s ++ ".py") with (String c (s ++ ".py")).
  cbn [replace_from].
  replace (String.prefix ".py" (String c (s ++ ".py"))) with false.
  - now rewrite IH.
  - symmetry. cbn [String.prefix] in Hp |- *.
    destruct (ascii_dec "." c); [|reflexivity].
    destruct s as [|c2 s]; [reflexivity|].
    cbn [append String.prefix] in Hp |- *.
    destruct (ascii_dec "p" c2); [|reflexivity].
    destruct s as [|c3 s]; [reflexivity|].
    cbn [append String.prefix] in Hp |- *.
    destruct (ascii_dec "y" c3); [|reflexivity].
    rewrite prefix_nil in Hp. discriminate.
Qed.

(** X22: for a script [DIR/STEM.py] whose STEM holds neither a slash nor a
    [.py], the default program name is STEM with a hyphen for every
    underscore. *)
Theorem default_prog_script : forall dir stem : string,
  contains "/" stem = false ->
  contains ".py" stem = false ->
  default_prog (dir ++ "/" ++ stem ++ ".py") = replace stem "_" "-" /\
  default_prog (stem ++ ".py") = replace stem "_" "-".
Proof.
  intros dir stem Hslash Hpy.
  assert (Hbase : forall cur, basename_from cur (stem ++ ".py") = cur ++ stem ++ ".py").
  { intros cur. apply basename_from_plain.
    clear Hpy. induction stem as [|c s IH]; [reflexivity|].
    cbn [contains] in Hslash. apply orb_false_iff in Hslash.
    destruct Hslash as [Hc Hs].
    change (String c s ++ ".py") with (String c (s ++ ".py")).
    cbn [contains]. rewrite (IH Hs), orb_false_r.
    cbn [String.prefix] in Hc |- *.
    destruct (ascii_dec "/" c); [|reflexivity].
    rewrite prefix_nil in Hc. discriminate. }
  assert (Hgoal : replace (replace (stem ++ ".py") "_" "-") ".py" "" =
                  replace stem "_" "-").
  { unfold replace.
    assert (E : replace_from "_" "-" 0 (stem ++ ".py") =
                replace_from "_" "-" 0 stem ++ ".py").
    { clear. induction stem as [|c s IH]; [reflexivity|].
      change (String c s ++ ".py") with (String c (s ++ ".py")).
      rewrite !replace_underscore_cons, IH. reflexivity. }
    rewrite E. apply replace_py_suffix.
    now rewrite replace_underscore_contains_py. }
  unfold default_prog, basename. split.
  - change (dir ++ "/" ++ stem ++ ".py")
      with (dir ++ String "/" (stem ++ ".py")).
    rewrite basename_from_slash, Hbase. exact Hgoal.
  - rewrite Hbase. exact Hgoal.
Qed.

Lemma default_prog_script_witness :
  default_prog ("/usr/bin" ++ "/" ++ "bayestar_localize_coincs" ++ ".py") =
    replace "bayestar_localize_coincs" "_" "-" /\
  default_prog ("bayestar_localize_coincs" ++ ".py") =
    replace "bayestar_localize_coincs" "_" "-".
Proof.
  apply (default_prog_script "/usr/bin" "bayestar_localize_coincs");
    reflexivity.
Defined.

Example default_prog_example :
  default_prog "/usr/bin/bayestar_localize_coincs.py" =
  "bayestar-localize-coincs".
Proof. reflexivity. Qed.

Lemma contains_underscore_cons (c : ascii) (s : string) :
  contains "_" (String c s) =
  ((if ascii_dec "_" c then true else false) || contains "_" s)%bool.
Proof.
  cbn [contains String.prefix].
  destruct (ascii_dec "_" c); [now rewrite prefix_nil | reflexivity].
Qed.

Lemma replace_py_keeps_out (s : string) :
  contains "_" s = false ->
  forall skip, contains "_" (replace_from ".py" "" skip s) = false.
Proof.
  induction s as [|c s IH]; intros H skip; [now destruct skip|].
  rewrite contains_underscore_cons in H. apply orb_false_iff in H.
  destruct H as [Hc Hs]. cbn [replace_from].
  destruct skip as [|k]; [|now apply IH].
  destruct (String.prefix ".py" (String c s)).
  - cbn [append]. now apply IH.
  - rewrite contains_underscore_cons, Hc. now apply IH.
Qed.

(** X23: whatever the file name, the default program name holds no
    underscore. *)
Theorem default_prog_no_underscore : forall co_filename : string,
  contains "_" (default_prog co_filename) = false.
Proof.
  intros f. unfold default_prog, replace.
  apply replace_py_keeps_out.
  induction (basename f) as [|c s IH]; [reflexivity|].
  rewrite replace_underscore_cons, contains_underscore_cons, IH.
  destruct (ascii_dec "_" c) as [<-|Hc].
  - now destruct (ascii_dec "_" "-").
  - now destruct (ascii_dec "_" c).
Qed.

(** ** GlobAction *)

(** X13: the call ends normally exactly when the number of files then held
    under [dest] fits [nargs]: at most one for [?], at least one for [+],
    any number for [*], exactly [k] for an integer [k]. Otherwise it raises
    an ArgumentError that tells both numbers, with [file] in the plural but
    for one; with no [nargs], or the [...] and [A...] forms, the conversion
    [int(self.nargs)] fails. *)
Theorem GlobAction_call_check :
  forall (glob : string -> list string) (n : nargs_spec) (d : string)
         (ns : namespace (option (list string))) (values : list string)
         (stored : option (list string)),
    getattr (fst (GlobAction_call glob n d ns values)) d = Some stored ->
    let N := match stored with
             | None => 0%Z
             | Some files => Z.of_nat (length files)
             end in
    match snd (GlobAction_call glob n d ns values) with
    | Return _ =>
        match n with
        | Optional => (N <= 1)%Z
        | OneOrMore => (1 <= N)%Z
        | ZeroOrMore => True
        | Exactly k => k = N
        | _ => False
        end
    | Throw e =>
        match n with
        | Optional =>
            (1 < N)%Z /\
            e = ArgumentError ("expected at most one file, but found "
                               ++ str_of_int N ++ " files")
        | OneOrMore =>
            N = 0%Z /\
            e = ArgumentError "expected at least one file, but found 0 files"
        | ZeroOrMore => False
        | Exactly k =>
            k <> N /\
            e = ArgumentError
                  ("expected exactly " ++ str_of_int k ++ " file"
                   ++ (if (k =? 1)%Z then "" else "s")
                   ++ ", but found " ++ str_of_int N ++ " file"
                   ++ (if (N =? 1)%Z then "" else "s"))
        | NoNargs => e = TypeError
        | Remainder | Parser => e = ValueError
        end
    end.
Proof.
  intros glob n d ns values stored Hget N.
  unfold GlobAction_call in *.
  set (ns1 := match concat (map glob values) with
              | [] => ns
              | _ :: _ => setattr ns d (Some (concat (map glob values)))
              end) in *.
  destruct (getattr ns1 d) as [stored'|] eqn:Hs.
  2:{ cbn [fst] in Hget. congruence. }
  assert (Hst : getattr ns1 d = Some stored).
  { destruct n; cbn [complaint int_of_nargs] in Hget;
      repeat match type of Hget with
             | context [if ?b then _ else _] => destruct b
             end; exact Hget. }
  assert (stored' = stored) by congruence. subst stored'. clear Hget Hst.
  fold N.
  assert (HN : (0 <= N)%Z) by (unfold N; destruct stored; lia).
  destruct n; unfold complaint, int_of_nargs; cbn [snd];
    try reflexivity; try exact I.
  - destruct (Z.ltb_spec 1 N) as [H|H]; cbn [snd].
    + assert (E : (N =? 1)%Z = false) by (apply Z.eqb_neq; lia).
      rewrite E. cbn [negb]. split; [exact H|]. reflexivity.
    + exact H.
  - destruct (Z.ltb_spec N 1) as [H|H]; cbn [snd].
    + assert (E0 : N = 0%Z) by lia. split; [exact E0|].
      rewrite E0. reflexivity.
    + exact H.
  - destruct (Z.eqb_spec n N) as [H|H]; cbn [negb snd].
    + exact H.
    + split; [exact H|].
      destruct (n =? 1)%Z, (N =? 1)%Z; cbn [negb];
        rewrite ?append_assoc; reflexivity.
Qed.

Lemma GlobAction_call_check_witness :
  (1 < 2)%Z /\
  ArgumentError "expected at most one file, but found 2 files" =
  ArgumentError ("expected at most one file, but found "
                 ++ str_of_int 2 ++ " files").
Proof.
  exact (GlobAction_call_check
           (fun s => if String.eqb s "*.fits" then ["a.fits"; "b.fits"] else [s])
           Optional "input" [("input", None)] ["*.fits"]
           (Some ["a.fits"; "b.fits"]) eq_refl).
Defined.

(** X14: the files matched by the patterns are stored under [dest], pattern
    after pattern, before the number is looked at, so that they stay there
    when the call raises, and no other attribute changes. When nothing
    matches, the namespace is left as it was, and it is the value already
    there that is counted. *)
Theorem GlobAction_call_store :
  forall (glob : string -> list string) (n : nargs_spec) (d : string)
         (ns : namespace (option (list string))) (values : list string),
    let found := concat (map glob values) in
    let ns' := fst (GlobAction_call glob n d ns values) in
    (found <> [] ->
       getattr ns' d = Some (Some found) /\
       forall k, k <> d -> getattr ns' k = getattr ns k) /\
    (found = [] ->
       ns' = ns /\
       (getattr ns d = None ->
        snd (GlobAction_call glob n d ns values) = Throw AttributeError)).
Proof.
  intros glob n d ns values found ns'.
  assert (Hfst : ns' = match found with
                       | [] => ns
                       | _ :: _ => setattr ns d (Some found)
                       end).
  { unfold ns', GlobAction_call. fold found.
    destruct (getattr _ d) as [stored|]; [|reflexivity].
    destruct (complaint n _) as [[msg|]|e]; reflexivity. }
  split.
  - intros Hne. rewrite Hfst. destruct found as [|f fs]; [contradiction|].
    split; [apply getattr_setattr|].
    intros k Hk. apply getattr_setattr_other. congruence.
  - intros Hnil. rewrite Hfst, Hnil. split; [reflexivity|].
    intros Hnone. unfold GlobAction_call. fold found. rewrite Hnil.
    now rewrite Hnone.
Qed.

(** ** _sanitize_arg_value_for_xmldoc *)

Fixpoint pyval_induction {A : Type} (P : pyval A -> Prop)
    (HPlain : forall a, P (Plain a))
    (HFile : forall name, P (FileLike name))
    (HTuple : forall items, Forall P items -> P (Tuple items))
    (HList : forall items, Forall P items -> P (PyList items))
    (v : pyval A) : P v :=
  match v with
  | Plain a => HPlain a
  | FileLike name => HFile name
  | Tuple items =>
      HTuple items
        ((fix go (l : list (pyval A)) : Forall P l :=
            match l with
            | [] => Forall_nil P
            | x :: l' =>
                Forall_cons x (pyval_induction P HPlain HFile HTuple HList x)
                            (go l')
            end) items)
  | PyList items =>
      HList items
        ((fix go (l : list (pyval A)) : Forall P l :=
            match l with
            | [] => Forall_nil P
            | x :: l' =>
                Forall_cons x (pyval_induction P HPlain HFile HTuple HList x)
                            (go l')
            end) items)
  end.

Lemma try_map_cons {A B : Type} (f : A -> try B) (a : A) (l : list A) :
  try_map f (a :: l) =
  match f a with
  | Throw e => Throw e
  | Return b =>
      match try_map f l with
      | Throw e => Throw e
      | Return bs => Return (b :: bs)
      end
  end.
Proof. reflexivity. Qed.

Lemma try_map_length {A B : Type} (f : A -> try B) (l : list A) :
  forall l', try_map f l = Return l' -> length l' = length l.
Proof.
  induction l as [|a l IH]; intros l'.
  - intros H. injection H as <-. reflexivity.
  - rewrite try_map_cons. destruct (f a) as [b|]; [|discriminate].
    destruct (try_map f l) as [bs|]; [|discriminate].
    intros H. injection H as <-. simpl. now rewrite (IH bs).
Qed.

Section Sanitize.

Variable A : Type.

Lemma try_map_id (items : list (pyval A)) :
  Forall (fun v => clean v = true -> sanitize v = Return v) items ->
  forallb clean items = true -> try_map sanitize items = Return items.
Proof.
  induction 1 as [|x l Hx _ IH]; [reflexivity|].
  simpl forallb. intros H. apply andb_true_iff in H. destruct H as [Hc Hcs].
  now rewrite try_map_cons, (Hx Hc), (IH Hcs).
Qed.

Lemma clean_unchanged (v : pyval A) :
  clean v = true -> sanitize v = Return v.
Proof.
  induction v as [a | name | items IH | items IH] using pyval_induction;
    cbn [clean sanitize]; intros H.
  - reflexivity.
  - discriminate.
  - now rewrite (try_map_id items IH H).
  - now rewrite (try_map_id items IH H).
Qed.

Let sanitized (v : pyval A) : Prop :=
  forall v', sanitize v = Return v' -> clean v' = plain_names v.

Lemma sanitized_items (items : list (pyval A)) :
  Forall sanitized items ->
  forall items',
    try_map sanitize items = Return items' ->
    forallb clean items' = forallb plain_names items.
Proof.
  induction 1 as [|x l Hx _ IH]; intros items'.
  - intros H. injection H as <-. reflexivity.
  - rewrite try_map_cons. destruct (sanitize x) as [y|] eqn:Ex; [|discriminate].
    destruct (try_map sanitize l) as [ys|] eqn:El; [|discriminate].
    intros H. injection H as <-.
    simpl. now rewrite (Hx y Ex), (IH ys eq_refl).
Qed.

Lemma sanitize_sanitized (v : pyval A) : sanitized v.
Proof.
  induction v as [a | name | items IH | items IH] using pyval_induction;
    intros v'; cbn [sanitize plain_names].
  - intros H. injection H as <-. reflexivity.
  - destruct name as [n|]; [|discriminate].
    intros H. injection H as <-. reflexivity.
  - destruct (try_map sanitize items) as [items'|] eqn:E; [|discriminate].
    intros H. injection H as <-.
    exact (sanitized_items items IH items' E).
  - destruct (try_map sanitize items) as [items'|] eqn:E; [|discriminate].
    intros H. injection H as <-.
    exact (sanitized_items items IH items' E).
Qed.

(** X15: the name of an object with a [read] attribute is returned as it
    is, whatever it is. What the function returns holds no object with a
    [read] attribute, at any depth of tuples and lists, exactly when no name
    found in the argument holds one; it is then left as it is by a second
    application. A tuple comes back as a tuple and a list as a list, of the
    same length. *)
Theorem sanitize_idempotent : forall v v' : pyval A,
  sanitize v = Return v' ->
  (forall n : pyval A, v = FileLike (Some n) -> v' = n) /\
  clean v' = plain_names v /\
  (plain_names v = true -> sanitize v' = Return v') /\
  (forall items, v = Tuple items ->
     exists items', v' = Tuple items' /\ length items' = length items) /\
  (forall items, v = PyList items ->
     exists items', v' = PyList items' /\ length items' = length items).
Proof.
  intros v v' H. pose proof (sanitize_sanitized v v' H) as Hc.
  split.
  { intros n ->. cbn [sanitize] in H. now injection H. }
  split; [exact Hc|]. split.
  { intros Hp. apply clean_unchanged. now rewrite Hc. }
  split.
  - intros items ->. cbn [sanitize] in H.
    destruct (try_map sanitize items) as [items'|] eqn:E; [|discriminate].
    injection H as <-. exists items'. split; [reflexivity|].
    now apply try_map_length in E.
  - intros items ->. cbn [sanitize] in H.
    destruct (try_map sanitize items) as [items'|] eqn:E; [|discriminate].
    injection H as <-. exists items'. split; [reflexivity|].
    now apply try_map_length in E.
Qed.

(** X16: a value that holds no object with a [read] attribute is returned
    unchanged. *)
Theorem sanitize_clean : forall v : pyval A,
  clean v = true -> sanitize v = Return v.
Proof.
  induction v as [a | name | items IH | items IH] using pyval_induction;
    cbn [clean sanitize]; intros H.
  - reflexivity.
  - discriminate.
  - now rewrite (try_map_id items IH H).
  - now rewrite (try_map_id items IH H).
Qed.

Lemma try_map_named (items : list (pyval A)) :
  Forall (fun v =>
            match sanitize v with
            | Return _ => named v = true
            | Throw e => e = AttributeError /\ named v = false
            end) items ->
  match try_map sanitize items with
  | Return _ => forallb named items = true
  | Throw e => e = AttributeError /\ forallb named items = false
  end.
Proof.
  induction 1 as [|x l Hx _ IH]; [reflexivity|].
  rewrite try_map_cons. simpl forallb.
  destruct (sanitize x) as [y|e].
  - rewrite Hx. destruct (try_map sanitize l) as [ys|e']; exact IH.
  - destruct Hx as [-> ->]. now split.
Qed.

(** X17: the function fails exactly when some object with a [read]
    attribute, at some depth of tuples and lists, has no [name]; the failure
    is then an AttributeError. *)
Theorem sanitize_named : forall v : pyval A,
  match sanitize v with
  | Return _ => named v = true
  | Throw e => e = AttributeError /\ named v = false
  end.
Proof.
  induction v as [a | name | items IH | items IH] using pyval_induction;
    cbn [sanitize named].
  - reflexivity.
  - destruct name; [reflexivity | now split].
  - pose proof (try_map_named items IH) as H.
    destruct (try_map sanitize items); exact H.
  - pose proof (try_map_named items IH) as H.
    destruct (try_map sanitize items); exact H.
Qed.

(** X26: the parameters registered for a command line keep every option of
    the namespace, under its name and in the same order, each with the
    sanitized value of the option. That value holds no object with a [read]
    attribute exactly when no name found in the option holds one. *)
Theorem register_params_spec :
  forall (opts params : namespace (pyval A)),
    register_params opts = Return params ->
    map fst params = map fst opts /\
    map (fun kv => clean (snd kv)) params =
    map (fun kv => plain_names (snd kv)) opts /\
    (Forall (fun kv => plain_names (snd kv) = true) opts ->
     Forall (fun kv => clean (snd kv) = true) params) /\
    forall (k : string) (v : pyval A),
      getattr opts k = Some v ->
      exists v', getattr params k = Some v' /\ sanitize v = Return v' /\
                 clean v' = plain_names v.
Proof.
  unfold register_params. induction opts as [|[k0 v0] opts IH]; intros params.
  - intros H. injection H as <-.
    repeat split; [constructor | discriminate].
  - rewrite try_map_cons. cbn [fst snd].
    destruct (sanitize v0) as [v0'|] eqn:E0; [|discriminate].
    destruct (try_map _ opts) as [ps|] eqn:Eps; [|discriminate].
    intros H. injection H as <-.
    destruct (IH ps eq_refl) as (Hk & Hm & Hc & Hg).
    pose proof (sanitize_sanitized v0 v0' E0) as H0.
    split; [simpl; now rewrite Hk|]. split; [|split].
    + simpl. now rewrite H0, Hm.
    + intros Hall. inversion Hall as [|? ? Hp Hps]; subst.
      cbn [snd] in Hp. constructor; [|exact (Hc Hps)].
      cbn [snd]. now rewrite H0.
    + intros k v. cbn [getattr].
      destruct (String.eqb k0 k).
      * intros H. injection H as <-. now exists v0'.
      * apply Hg.
Qed.

End Sanitize.

Lemma sanitize_idempotent_witness :
  let v := Tuple [FileLike (Some (Plain "coinc.xml"));
                  PyList [Plain "a"; FileLike (Some (Plain "-"))]] in
  let v' := Tuple [Plain "coinc.xml"; PyList [Plain "a"; Plain "-"]] in
  let w := FileLike (Some (FileLike (Some (Plain "psd.xml")))) in
  let w' := FileLike (Some (Plain "psd.xml")) in
  (sanitize v = Return v' /\ clean v' = true /\ sanitize v' = Return v') /\
  (sanitize w = Return w' /\ clean w' = false).
Proof.
  intros v v' w w'.
  destruct (sanitize_idempotent string v v' eq_refl) as (_ & H1 & H2 & _).
  destruct (sanitize_idempotent string w w' eq_refl) as (_ & H3 & _).
  split.
  - split; [reflexivity|]. split; [exact H1 | exact (H2 eq_refl)].
  - split; [reflexivity | exact H3].
Defined.

Lemma register_params_spec_witness :
  let opts := [("input", FileLike (Some (Plain "coinc.xml")));
               ("waveform", Plain "TaylorF2")] in
  let params := [("input", Plain "coinc.xml"); ("waveform", Plain "TaylorF2")] in
  map fst params = map fst opts /\
  Forall (fun kv : string * pyval string => clean (snd kv) = true) params.
Proof.
  intros opts params.
  destruct (register_params_spec string opts params eq_refl)
    as (Hk & _ & Hc & _).
  split; [exact Hk|]. apply Hc.
  repeat constructor.
Defined.

Lemma sanitize_clean_witness :
  sanitize (Tuple [Plain 30%Z; PyList [Plain 1%Z; Plain 2%Z]]) =
  Return (Tuple [Plain 30%Z; PyList [Plain 1%Z; Plain 2%Z]]).
Proof.
  apply (sanitize_clean Z). reflexivity.
Defined.

(** ** iterlines *)

Section LinesFacts.

Variable char : Type.
Variable isspace : char -> bool.

Lemma lstrip_split (s : list char) :
  exists p, s = (p ++ lstrip isspace s)%list /\ forallb isspace p = true.
Proof.
  induction s as [|c s IH].
  - now exists [].
  - simpl. destruct (isspace c) eqn:E.
    + destruct IH as (p & Hp & Hs). exists (c :: p). split.
      * simpl. now rewrite <- Hp.
      * simpl. now rewrite E.
    + now exists [].
Qed.

Lemma lstrip_head (s : list char) (c : char) (t : list char) :
  lstrip isspace s = c :: t -> isspace c = false.
Proof.
  induction s as [|x s IH]; simpl; [discriminate|].
  destruct (isspace x) eqn:E; [exact IH|].
  intros H. injection H as <- _. exact E.
Qed.

Lemma lstrip_fixed (c : char) (t : list char) :
  isspace c = false -> lstrip isspace (c :: t) = c :: t.
Proof. intros H. simpl. now rewrite H. Qed.

Lemma lstrip_spaces (p s : list char) :
  forallb isspace p = true -> lstrip isspace (p ++ s)%list = lstrip isspace s.
Proof.
  induction p as [|c p IH]; simpl; [reflexivity|].
  intros H. apply andb_true_iff in H. destruct H as [-> H]. now apply IH.
Qed.

(** The right strip drops a run of spaces at the end, and nothing else. *)
Lemma rstrip_split (s : list char) :
  exists q, s = (rstrip isspace s ++ q)%list /\ forallb isspace q = true.
Proof.
  unfold rstrip. destruct (lstrip_split (rev s)) as (p & Hp & Hs).
  exists (rev p). split.
  - rewrite <- rev_app_distr, <- Hp. now rewrite rev_involutive.
  - rewrite forallb_forall in *. intros x Hx. apply Hs. now apply in_rev.
Qed.

Lemma rstrip_last (s : list char) (d : char) :
  rstrip isspace s <> [] -> isspace (last (rstrip isspace s) d) = false.
Proof.
  unfold rstrip. destruct (lstrip isspace (rev s)) as [|c t] eqn:E.
  - intros H. now contradiction H.
  - intros _. simpl rev. rewrite last_last. eapply lstrip_head, E.
Qed.

Lemma rstrip_fixed (s : list char) (d : char) :
  s <> [] -> isspace (last s d) = false -> rstrip isspace s = s.
Proof.
  intros Hne Hl. unfold rstrip.
  destruct (rev s) as [|c t] eqn:E.
  - apply (f_equal (@rev char)) in E. rewrite rev_involutive in E.
    now contradiction Hne.
  - assert (Hs : s = (rev t ++ [c])%list).
    { rewrite <- (rev_involutive s), E. reflexivity. }
    rewrite Hs, last_last in Hl. rewrite lstrip_fixed by exact Hl.
    now rewrite Hs.
Qed.

Lemma rstrip_spaces (s q : list char) :
  forallb isspace q = true -> rstrip isspace (s ++ q)%list = rstrip isspace s.
Proof.
  intros H. unfold rstrip. rewrite rev_app_distr, lstrip_spaces; [reflexivity|].
  rewrite forallb_forall in *. intros x Hx. apply H. now apply in_rev.
Qed.

Lemma strip_stripped (s : list char) :
  strip isspace s <> [] -> stripped isspace (strip isspace s).
Proof.
  unfold strip. intros Hne.
  destruct (rstrip isspace (lstrip isspace s)) as [|c t] eqn:E;
    [now contradiction Hne|].
  exists c, t. split; [reflexivity|]. split.
  - destruct (rstrip_split (lstrip isspace s)) as (q & Hq & _).
    rewrite E in Hq. simpl in Hq. eapply lstrip_head, Hq.
  - rewrite <- E. apply rstrip_last. now rewrite E.
Qed.

Lemma strip_fixed (l : list char) : stripped isspace l -> strip isspace l = l.
Proof.
  intros (c & t & -> & Hc & Hl). unfold strip.
  rewrite lstrip_fixed by exact Hc.
  apply (rstrip_fixed _ c); [discriminate | exact Hl].
Qed.

Lemma strip_blank (l : list char) :
  forallb isspace l = true -> strip isspace l = [].
Proof.
  intros H. unfold strip.
  replace (lstrip isspace l) with (@nil char); [reflexivity|].
  rewrite <- (app_nil_r l), lstrip_spaces by exact H. reflexivity.
Qed.

Lemma read_lines_cons (line : list char) (rest : list (list char)) :
  line <> [] ->
  read_lines isspace (line :: rest) =
  match strip isspace line with
  | [] => read_lines isspace rest
  | l => l :: read_lines isspace rest
  end.
Proof. destruct line; [intros H; now contradiction H | reflexivity]. Qed.

Lemma read_lines_stripped (reads : list (list char)) :
  Forall (stripped isspace) (read_lines isspace reads) /\
  (length (read_lines isspace reads) <= length reads)%nat.
Proof.
  induction reads as [|line rest [IH1 IH2]]; [split; [constructor | apply le_n]|].
  destruct line as [|c t]; [split; [constructor | simpl; lia]|].
  rewrite read_lines_cons by discriminate.
  destruct (strip isspace (c :: t)) as [|x l] eqn:E.
  - split; [exact IH1 | simpl; lia].
  - split; [|simpl; lia]. constructor; [|exact IH1].
    rewrite <- E. apply strip_stripped. now rewrite E.
Qed.

(** X18: every line that [iterlines] yields is not empty and neither begins
    nor ends with a space, and no more lines are yielded than were read; the
    two messages are printed, in this order, on a terminal only. *)
Theorem iterlines_stripped :
  forall (M : Type) (is_tty : bool) (reads : list (list char))
         (start_message stop_message : M),
    let r := iterlines isspace is_tty reads start_message stop_message in
    Forall (stripped isspace) (fst r) /\
    (length (fst r) <= length reads)%nat /\
    snd r = if is_tty then [start_message; stop_message] else [].
Proof.
  intros M is_tty reads start_message stop_message. cbn zeta.
  unfold iterlines. cbn [fst snd].
  destruct (read_lines_stripped reads) as [H1 H2].
  split; [exact H1|]. split; [exact H2 | reflexivity].
Qed.

(** X19: a line made of spaces only is passed over and the reading goes on,
    whereas an empty result of [readline] ends it: nothing that comes after
    is yielded. *)
Theorem read_lines_blank_and_end :
  forall (before after : list (list char)) (blank : list char),
    Forall (fun line => line <> []) before ->
    blank <> [] -> forallb isspace blank = true ->
    read_lines isspace (before ++ blank :: after) =
      (read_lines isspace before ++ read_lines isspace after)%list /\
    read_lines isspace (before ++ [] :: after) = read_lines isspace before.
Proof.
  intros before after blank Hbefore Hne Hblank.
  induction Hbefore as [|line rest Hline _ [IH1 IH2]].
  - split; [|reflexivity]. simpl app.
    rewrite read_lines_cons by exact Hne. now rewrite strip_blank.
  - destruct line as [|x xs]; [now contradiction Hline|].
    simpl app. cbn [read_lines].
    destruct (strip isspace (x :: xs)); [now split|].
    split; [simpl app; now rewrite IH1 | now rewrite IH2].
Qed.

(** X20: the lines yielded, read again, are yielded unchanged, whether they
    are given as they are or each followed by a character that is a space,
    as the newline is. *)
Theorem read_lines_again :
  forall (reads : list (list char)) (newline : char),
    isspace newline = true ->
    read_lines isspace (read_lines isspace reads) = read_lines isspace reads /\
    read_lines isspace
      (map (fun l => (l ++ [newline])%list) (read_lines isspace reads)) =
    read_lines isspace reads.
Proof.
  intros reads newline Hnl.
  destruct (read_lines_stripped reads) as [H _].
  induction H as [|l ls Hl _ [IH1 IH2]]; [split; reflexivity|].
  pose proof (strip_fixed l Hl) as Hfix.
  destruct Hl as (c & t & -> & Hc & Hlast).
  split.
  - rewrite read_lines_cons by discriminate. now rewrite Hfix, IH1.
  - simpl map. simpl app. rewrite read_lines_cons by discriminate.
    assert (E : strip isspace (c :: (t ++ [newline])%list) = c :: t).
    { unfold strip. rewrite lstrip_fixed by exact Hc.
      change (c :: (t ++ [newline])%list) with ((c :: t) ++ [newline])%list.
      rewrite rstrip_spaces by (simpl; now rewrite Hnl).
      apply (rstrip_fixed _ c); [discriminate | exact Hlast]. }
    now rewrite E, IH2.
Qed.

End LinesFacts.

Lemma read_lines_blank_and_end_witness :
  read_lines Example.ascii_space
    (list_ascii_of_string "a b " :: list_ascii_of_string "  "
       :: list_ascii_of_string " c" :: nil) =
  [list_ascii_of_string "a b"; list_ascii_of_string "c"] /\
  read_lines Example.ascii_space
    (list_ascii_of_string "a b " :: nil :: list_ascii_of_string " c" :: nil) =
  [list_ascii_of_string "a b"].
Proof.
  apply (read_lines_blank_and_end ascii Example.ascii_space
           [list_ascii_of_string "a b "] [list_ascii_of_string " c"]
           (list_ascii_of_string "  ")).
  - repeat constructor. discriminate.
  - discriminate.
  - reflexivity.
Defined.

Lemma read_lines_again_witness :
  let reads := [list_ascii_of_string " x y "; list_ascii_of_string "z"] in
  read_lines Example.ascii_space (read_lines Example.ascii_space reads) =
    read_lines Example.ascii_space reads /\
  read_lines Example.ascii_space
    (map (fun l => (l ++ ["010"%char])%list) (read_lines Example.ascii_space reads)) =
  read_lines Example.ascii_space reads.
Proof.
  intros reads.
  apply (read_lines_again ascii Example.ascii_space reads "010"%char). reflexivity.
Defined.

End ToolFacts.
